(** * Leyesamano: the legal-query session, source extraction and PCM playback

    A shallow embedding of [src/services/geminiService.ts],
    [src/components/ChatMessage.tsx] and the handlers of [src/App.tsx].

    - JavaScript values are modelled as the code uses them: strings as
      [string], optional fields as [option], numbers that stay integral as
      [Z], the numbers stored in audio channels as binary64 floats.
    - A function that may throw returns a [Completion].
    - An [async] handler is cut at its [await]: the part that runs when the
      handler is called, and the part that runs when the awaited promise
      settles.  Anything may happen between the two.
    - What the browser and the provider supply (base64 decoding, URL parsing,
      trimming, the generative model) is a parameter: class [Host] and the
      [generateContent] argument. *)

From Stdlib Require Import ZArith String Ascii List Lia Bool QArith Qpower.
From Stdlib Require Import SpecFloat PrimFloat FloatOps Uint63.
From Stdlib Require Import DecimalString DecimalPos DecimalZ.
From stdpp Require Import base list strings.

Local Open Scope string_scope.
Local Open Scope list_scope.

(** ** JavaScript basics *)

Module Js.

(** A thrown [Error] object: its [name] and its [message]. *)
Record JsError := { name : string; message : string }.

Inductive Completion (A : Type) : Type :=
| Normal (a : A)
| Throw (e : JsError).
Arguments Normal {A} a.
Arguments Throw {A} e.

Definition bind {A B} (c : Completion A) (k : A -> Completion B) : Completion B :=
  match c with
  | Normal a => k a
  | Throw e => Throw e
  end.

(** [try { c } catch (error) { handler(error) }] *)
Definition try_catch {A} (c : Completion A) (handler : JsError -> Completion A)
  : Completion A :=
  match c with
  | Normal a => Normal a
  | Throw e => handler e
  end.

(** Truthiness of a string: every string but the empty one. *)
Definition truthy (s : string) : bool := negb (String.eqb s "").

(** Truthiness of a [string | undefined]. *)
Definition truthy_opt (o : option string) : bool :=
  match o with
  | Some s => truthy s
  | None => false
  end.

(** [a || b] where [a : string | undefined] and [b : string]. *)
Definition or_else (a : option string) (b : string) : string :=
  match a with
  | Some s => if truthy s then s else b
  | None => b
  end.

(** [`${x}`] for [x : string | undefined]. *)
Definition template (o : option string) : string :=
  match o with
  | Some s => s
  | None => "undefined"
  end.

(** [n.toString()] for an integral number. *)
Definition Number_toString (n : Z) : string :=
  NilZero.string_of_int (Z.to_int n).

Definition Error (msg : string) : JsError := {| name := "Error"; message := msg |}.

End Js.
Export Js.

Declare Scope completion_scope.
Delimit Scope completion_scope with completion.
Notation "'let*' x ':=' c 'in' k" := (bind c (fun x => k))
  (at level 10, x name, c at level 100, k at level 200) : completion_scope.

(** ** Web Audio objects, as far as the component touches them *)

Module WebAudio.

Record AudioContext := { ctx_sampleRate : Z }.

(** An [AudioBuffer]: its shape and the samples of its single channel. *)
Record AudioBuffer := {
  numberOfChannels : Z;
  buf_length : Z;
  buf_sampleRate : Z;
  channelData : list float
}.

Record AudioBufferSourceNode := { buffer : AudioBuffer }.

(** What [stop()] throws on a node that cannot be stopped. *)
Definition InvalidStateError : JsError :=
  {| name := "InvalidStateError";
     message := "cannot call stop without calling start first" |}.

Definition NotSupportedError : JsError :=
  {| name := "NotSupportedError";
     message := "The number of frames provided is outside the supported range" |}.

(** [ctx.createBuffer(numberOfChannels, length, sampleRate)]: a buffer of
    zeros; a [NotSupportedError] when an argument is outside its nominal
    range (at least one channel and at most 32, at least one frame, a rate
    between 8000 and 96000 Hz). *)
Definition createBuffer (ctx : AudioContext) (channels length sampleRate : Z)
  : Completion AudioBuffer :=
  if ((1 <=? channels) && (channels <=? 32) && (1 <=? length)
      && (8000 <=? sampleRate) && (sampleRate <=? 96000))%Z
  then Normal {| numberOfChannels := channels;
                 buf_length := length;
                 buf_sampleRate := sampleRate;
                 channelData := replicate (Z.to_nat length) PrimFloat.zero |}
  else Throw NotSupportedError.

End WebAudio.
Export WebAudio.

(** ** The host environment *)

(** The built-ins the code calls and does not define.
    [atob] and [new URL(s).hostname] may throw; [trim] cannot. *)
Class Host := {
  atob : string -> Completion string;
  URL_hostname : string -> Completion string;
  String_trim : string -> string;
  new_AudioContext : Z -> Completion AudioContext
}.


(** ** [src/services/geminiService.ts] *)

Module Service.

(** [Source] of [types.ts]: [{ title?: string; uri: string }]. *)
Record Source := { src_title : option string; src_uri : string }.

(** The part of the provider's response the code reads. *)
Record GroundingChunkWeb := { web_uri : option string; web_title : option string }.
Record GroundingChunk := { web : option GroundingChunkWeb }.
Record GroundingMetadata := { groundingChunks : option (list GroundingChunk) }.
Record Candidate := { groundingMetadata : option GroundingMetadata }.
Record GenerateContentResponse := {
  resp_text : option string;
  candidates : option (list Candidate)
}.

(** The argument of [ai.models.generateContent]; the [config] field is the
    same constant in every call and is left out. *)
Record GenerateContentParameters := { model : string; contents : string }.

(** What [searchLegalInfo] resolves to. *)
Record SearchResult := { res_text : string; res_sources : list Source }.

Definition FALLBACK_TEXT : string :=
  "Lo siento, no pude generar una respuesta en este momento.".

Definition SEARCH_ERROR : JsError :=
  Error "Hubo un error al consultar el asistente legal. Por favor intenta de nuevo.".

(** Lines 22-34: the query that is sent. *)
Definition contextualize (query : string) (country state : option string) : string :=
  let contextualizedQuery := query in
  let contextString := "" in
  let contextString :=
    if truthy_opt country
    then contextString +:+ "País: " +:+ template country
    else contextString in
  let contextString :=
    if truthy_opt state
    then contextString +:+ ", Estado/Región: " +:+ template state
    else contextString in
  if truthy contextString
  then "Contexto Legal (" +:+ contextString +:+ "). Pregunta del usuario: " +:+ query
  else contextualizedQuery.

Definition searchLegalInfo_request (query : string) (country state : option string)
  : GenerateContentParameters :=
  {| model := "gemini-3-flash-preview";
     contents := contextualize query country state |}.

(** [response.candidates?.[0]?.groundingMetadata?.groundingChunks] *)
Definition response_chunks (response : GenerateContentResponse)
  : option (list GroundingChunk) :=
  match candidates response with
  | Some (candidate :: _) =>
      match groundingMetadata candidate with
      | Some metadata => groundingChunks metadata
      | None => None
      end
  | _ => None
  end.

(** The body of the [forEach] callback, lines 53-58: [sources] after the
    callback ran on [chunk], or what it threw. *)
Definition push_chunk `{Host} (sources : list Source) (chunk : GroundingChunk)
  : Completion (list Source) :=
  match web chunk with
  | Some w =>
      if truthy_opt (web_uri w)
      then
        let uri := template (web_uri w) in
        (let* title :=
           (if truthy_opt (web_title w)
            then Normal (template (web_title w))
            else URL_hostname uri) in
         Normal (sources ++ [ {| src_title := Some title; src_uri := uri |} ]))%completion
      else Normal sources
  | None => Normal sources
  end.

(** [chunks.forEach(callback)]: the first throw ends the loop. *)
Fixpoint forEach_chunks `{Host} (chunks : list GroundingChunk) (sources : list Source)
  : Completion (list Source) :=
  match chunks with
  | [] => Normal sources
  | chunk :: rest =>
      match push_chunk sources chunk with
      | Normal sources' => forEach_chunks rest sources'
      | Throw e => Throw e
      end
  end.

(** Lines 45-62: what the function does with the provider's response. *)
Definition process_response `{Host} (response : GenerateContentResponse)
  : Completion SearchResult :=
  let text := or_else (resp_text response) FALLBACK_TEXT in
  (let* sources :=
     match response_chunks response with
     | Some chunks => forEach_chunks chunks []
     | None => Normal []
     end in
   Normal {| res_text := text; res_sources := sources |})%completion.

(** [searchLegalInfo], lines 20-67.  [generateContent] is the provider: what
    the awaited call settles to for a given request. *)
Definition searchLegalInfo `{Host}
    (generateContent : GenerateContentParameters -> Completion GenerateContentResponse)
    (query : string) (country state : option string) : Completion SearchResult :=
  try_catch
    (let* response := generateContent (searchLegalInfo_request query country state) in
     process_response response)%completion
    (fun error => Throw SEARCH_ERROR).

End Service.
Export Service.

(** ** [src/services/geminiService.ts]: speech *)

Module Speech.

(** The text to speak as its UTF-16 code units, which is what the regular
    expressions match and what [substring] counts. *)
Definition CodeUnits : Type := list Z.

Definition STAR : Z := 42.
Definition HASH : Z := 35.
Definition UNDERSCORE : Z := 95.
Definition BACKTICK : Z := 96.
Definition LBRACKET : Z := 91.
Definition RBRACKET : Z := 93.
Definition LPAREN : Z := 40.
Definition RPAREN : Z := 41.

(** The class [[*#_`]]. *)
Definition is_marker (u : Z) : bool :=
  ((u =? STAR) || (u =? HASH) || (u =? UNDERSCORE) || (u =? BACKTICK))%Z.

(** [text.replace(/[*#_`]/g, '')] *)
Definition strip_markers (text : CodeUnits) : CodeUnits :=
  List.filter (fun u => negb (is_marker u)) text.

(** The longest run of code units other than [stop] at the start of [l],
    and what follows it: how a greedy [[^stop]*] matches. *)
Fixpoint span_until (stop : Z) (l : CodeUnits) : CodeUnits * CodeUnits :=
  match l with
  | [] => ([], [])
  | u :: rest =>
      if (u =? stop)%Z then ([], l)
      else let '(run, after) := span_until stop rest in (u :: run, after)
  end.

(** A match of [/\[([^\]]+)\]\([^)]+\)/] at the start of [l]: its first
    group and what follows the match.  Both runs are greedy and each must be
    followed by its closing character, so no shorter run can match. *)
Definition match_link (l : CodeUnits) : option (CodeUnits * CodeUnits) :=
  match l with
  | u :: rest =>
      if (u =? LBRACKET)%Z then
        match span_until RBRACKET rest with
        | ((_ :: _) as label, r :: p :: rest') =>
            if ((r =? RBRACKET) && (p =? LPAREN))%Z then
              match span_until RPAREN rest' with
              | (_ :: _, q :: rest'') =>
                  if (q =? RPAREN)%Z then Some (label, rest'') else None
              | _ => None
              end
            else None
        | _ => None
        end
      else None
  | [] => None
  end.

(** [s.replace(/\[([^\]]+)\]\([^)]+\)/g, '$1')]: from left to right, a match
    is replaced by its first group and the scan goes on after the match; a
    code unit where nothing matches is kept.  [fuel] bounds the scan; the
    length of [l] is enough. *)
Fixpoint replace_links_fuel (fuel : nat) (l : CodeUnits) : CodeUnits :=
  match fuel with
  | O => l
  | S fuel' =>
      match l with
      | [] => []
      | u :: rest =>
          match match_link l with
          | Some (label, after) => label ++ replace_links_fuel fuel' after
          | None => u :: replace_links_fuel fuel' rest
          end
      end
  end.

Definition replace_links (l : CodeUnits) : CodeUnits :=
  replace_links_fuel (length l) l.

(** Line 72. *)
Definition cleanText (text : CodeUnits) : CodeUnits :=
  take 1000 (replace_links (strip_markers text)).

(** The part of the speech model's response the code reads. *)
Record InlineData := { data : option string }.
Record Part := { inlineData : option InlineData }.
Record Content := { parts : option (list Part) }.
Record SpeechCandidate := { content : option Content }.
Record SpeechResponse := { speech_candidates : option (list SpeechCandidate) }.

(** The argument of the call; the modality and the voice are constants. *)
Record SpeechParameters := {
  speech_model : string;
  speech_text : CodeUnits;
  voiceName : string
}.

Definition generateSpeech_request (text : CodeUnits) : SpeechParameters :=
  {| speech_model := "gemini-2.5-flash-preview-tts";
     speech_text := cleanText text;
     voiceName := "Kore" |}.

(** [response.candidates?.[0]?.content?.parts?.[0]?.inlineData?.data] *)
Definition response_audio (response : SpeechResponse) : option string :=
  match speech_candidates response with
  | Some (candidate :: _) =>
      match content candidate with
      | Some c =>
          match parts c with
          | Some (part :: _) =>
              match inlineData part with
              | Some inline => data inline
              | None => None
              end
          | _ => None
          end
      | None => None
      end
  | _ => None
  end.

Definition NO_AUDIO : JsError := Error "No audio generated".

(** [generateSpeech], lines 69-96; the [catch] logs and throws the error it
    caught. *)
Definition generateSpeech
    (generateContent : SpeechParameters -> Completion SpeechResponse)
    (text : CodeUnits) : Completion string :=
  try_catch
    (let* response := generateContent (generateSpeech_request text) in
     let base64Audio := response_audio response in
     if negb (truthy_opt base64Audio)
     then Throw NO_AUDIO
     else Normal (template base64Audio))%completion
    (fun error => Throw error).

End Speech.
Export Speech.


(** ** Numbers and typed arrays *)

Module Numeric.

(** [for (let i = start; i < start + n; i++) state = body(i, state)] *)
Fixpoint for_loop {St : Type} (n : nat) (i : nat) (body : nat -> St -> St) (s : St) : St :=
  match n with
  | O => s
  | S n' => for_loop n' (S i) body (body i s)
  end.

(** An integral JavaScript number as a binary64 float (exact below 2^53,
    which covers every element of a typed array). *)
Definition Number_of_Z (z : Z) : float :=
  match z with
  | Z0 => PrimFloat.zero
  | Zpos _ => PrimFloat.of_uint63 (Uint63.of_Z z)
  | Zneg p => PrimFloat.opp (PrimFloat.of_uint63 (Uint63.of_Z (Zpos p)))
  end.

(** A store into a [Float32Array] rounds the number to binary32 (to nearest,
    ties to even); reading it back gives that binary32 value as a number. *)
Definition Math_fround (x : float) : float :=
  match Prim2SF x with
  | S754_finite s m e =>
      SF2Prim (binary_normalize 24 128 (cond_Zopp s (Zpos m)) e s)
  | _ => x
  end.

(** The rational a finite number denotes. *)
Definition Number_value (x : float) : option Q :=
  match Prim2SF x with
  | S754_zero _ => Some 0%Q
  | S754_finite s m e => Some (inject_Z (cond_Zopp s (Zpos m)) * Qpower 2 e)%Q
  | _ => None
  end.

(** [Math.round(x)]: the integer nearest to [x], a tie going up. *)
Definition Math_round (x : float) : option Z :=
  match Prim2SF x with
  | S754_zero _ => Some 0%Z
  | S754_finite s m e =>
      let M := cond_Zopp s (Zpos m) in
      if (0 <=? e)%Z then Some (M * 2 ^ e)%Z
      else Some ((2 * M + 2 ^ (- e)) / 2 ^ (- e + 1))%Z
  | _ => None
  end.

(** [s.charCodeAt(i)]; [None] is [NaN]. *)
Definition charCodeAt (s : string) (i : nat) : option Z :=
  match String.get i s with
  | Some c => Some (Z.of_nat (nat_of_ascii c))
  | None => None
  end.

(** What a store into a [Uint8Array] keeps of a number. *)
Definition ToUint8 (v : option Z) : Z :=
  match v with
  | Some z => (z mod 256)%Z
  | None => 0%Z
  end.

Definition Int16Array_RangeError : JsError :=
  {| name := "RangeError";
     message := "byte length of Int16Array should be a multiple of 2" |}.

(** Two bytes of a buffer read as one signed 16-bit element, low byte first. *)
Definition int16_of_bytes (lo hi : Z) : Z :=
  let u := (lo + 256 * hi)%Z in
  if (u <? 32768)%Z then u else (u - 65536)%Z.

Fixpoint int16_view (bytes : list Z) : list Z :=
  match bytes with
  | lo :: hi :: rest => int16_of_bytes lo hi :: int16_view rest
  | _ => []
  end.

(** [new Int16Array(buffer)]: a view on the whole buffer; a [RangeError] when
    the byte length is not a multiple of the element size. *)
Definition new_Int16Array (buffer : list Z) : Completion (list Z) :=
  if (length buffer mod 2 =? 0)%nat
  then Normal (int16_view buffer)
  else Throw Int16Array_RangeError.

End Numeric.
Export Numeric.

(** ** [src/components/ChatMessage.tsx]: decoding *)

Module Audio.

(** [decode], lines 12-20. *)
Definition decode `{Host} (base64 : string) : Completion (list Z) :=
  (let* binaryString := atob base64 in
   let len := String.length binaryString in
   let bytes := replicate len 0%Z in
   Normal (for_loop len 0
             (fun i bytes => <[i := ToUint8 (charCodeAt binaryString i)]> bytes)
             bytes))%completion.

(** [pcm16[i] / 32768.0] as it is kept in the channel; an index outside the
    view reads [undefined], whose quotient is [NaN]. *)
Definition normalized_sample (pcm16 : list Z) (i : nat) : float :=
  match pcm16 !! i with
  | Some s => Math_fround (PrimFloat.div (Number_of_Z s) 32768%float)
  | None => PrimFloat.nan
  end.

(** [pcmToAudioBuffer], lines 23-38. *)
Definition pcmToAudioBuffer (data : list Z) (ctx : AudioContext) (sampleRate : Z)
  : Completion AudioBuffer :=
  (let* pcm16 := new_Int16Array data in
   let frameCount := length pcm16 in
   let* audioBuffer := createBuffer ctx 1 (Z.of_nat frameCount) sampleRate in
   let channelData' :=
     for_loop frameCount 0
       (fun i channelData => <[i := normalized_sample pcm16 i]> channelData)
       (channelData audioBuffer) in
   Normal {| numberOfChannels := numberOfChannels audioBuffer;
             buf_length := buf_length audioBuffer;
             buf_sampleRate := buf_sampleRate audioBuffer;
             channelData := channelData' |})%completion.

(** The default of the third parameter. *)
Definition DEFAULT_SAMPLE_RATE : Z := 24000.

End Audio.
Export Audio.


(** ** [src/components/ChatMessage.tsx]: the component *)

Module Playback.

(** The state of one mounted [ChatMessage]: its two [useState] cells and its
    two refs. *)
Record Component := {
  isPlaying : bool;
  isLoadingAudio : bool;
  audioContextRef : option AudioContext;
  sourceRef : option AudioBufferSourceNode
}.

Definition mounted : Component :=
  {| isPlaying := false; isLoadingAudio := false;
     audioContextRef := None; sourceRef := None |}.

(** What a handler does to the world outside the component. *)
Inductive Effect :=
| CallGenerateSpeech (text : string)
| SourceStart
| SourceStop
| ContextClose
| ConsoleError
| Alert (msg : string).

(** A handler: from the component's state to how it completes, the state it
    leaves and the effects it had, in order. *)
Definition Handler (A : Type) : Type :=
  Component -> Completion A * Component * list Effect.

Definition ret {A} (a : A) : Handler A := fun c => (Normal a, c, []).

Definition seq_bind {A B} (h : Handler A) (k : A -> Handler B) : Handler B :=
  fun c =>
    match h c with
    | (Normal a, c', effects) =>
        let '(r, c'', effects') := k a c' in (r, c'', effects ++ effects')
    | (Throw e, c', effects) => (Throw e, c', effects)
    end.

(** [try { h } catch (error) { handler(error) }] *)
Definition catch {A} (h : Handler A) (handler : JsError -> Handler A) : Handler A :=
  fun c =>
    match h c with
    | (Normal a, c', effects) => (Normal a, c', effects)
    | (Throw e, c', effects) =>
        let '(r, c'', effects') := handler e c' in (r, c'', effects ++ effects')
    end.

(** [try { h } finally { final }] *)
Definition finally {A} (h : Handler A) (final : Handler unit) : Handler A :=
  fun c =>
    let '(r, c', effects) := h c in
    match final c' with
    | (Normal _, c'', effects') => (r, c'', effects ++ effects')
    | (Throw e, c'', effects') => (Throw e, c'', effects ++ effects')
    end.

Definition lift {A} (r : Completion A) : Handler A := fun c => (r, c, []).
Definition emit (e : Effect) : Handler unit := fun c => (Normal tt, c, [e]).

Definition setIsPlaying (b : bool) : Handler unit :=
  fun c => (Normal tt,
            {| isPlaying := b; isLoadingAudio := isLoadingAudio c;
               audioContextRef := audioContextRef c; sourceRef := sourceRef c |}, []).

Definition setIsLoadingAudio (b : bool) : Handler unit :=
  fun c => (Normal tt,
            {| isPlaying := isPlaying c; isLoadingAudio := b;
               audioContextRef := audioContextRef c; sourceRef := sourceRef c |}, []).

Definition set_audioContextRef (r : option AudioContext) : Handler unit :=
  fun c => (Normal tt,
            {| isPlaying := isPlaying c; isLoadingAudio := isLoadingAudio c;
               audioContextRef := r; sourceRef := sourceRef c |}, []).

Definition set_sourceRef (r : option AudioBufferSourceNode) : Handler unit :=
  fun c => (Normal tt,
            {| isPlaying := isPlaying c; isLoadingAudio := isLoadingAudio c;
               audioContextRef := audioContextRef c; sourceRef := r |}, []).

Declare Scope handler_scope.
Delimit Scope handler_scope with handler.
Notation "'let!' x ':=' h 'in' k" := (seq_bind h (fun x => k))
  (at level 10, x name, h at level 100, k at level 200) : handler_scope.
Notation "h1 ';;' h2" := (seq_bind h1 (fun _ => h2))
  (at level 100, right associativity) : handler_scope.

(** [source.stop()]: the node is asked to stop; [stop_outcome] is how the
    call completes, which depends on the browser and on the node's history. *)
Definition source_stop (stop_outcome : Completion unit) : Handler unit :=
  (emit SourceStop ;; lift stop_outcome)%handler.

(** [stopAudio], lines 54-68. *)
Definition stopAudio (stop_outcome : Completion unit) : Handler unit :=
  ((fun c =>
      match sourceRef c with
      | Some source =>
          (catch (source_stop stop_outcome) (fun e => ret tt) ;;
           set_sourceRef None) c
      | None => ret tt c
      end) ;;
   (fun c =>
      match audioContextRef c with
      | Some ctx => (emit ContextClose ;; set_audioContextRef None) c
      | None => ret tt c
      end) ;;
   setIsPlaying false)%handler.

(** [handleSpeak], lines 70-74 and 76-79: what runs when the button is
    pressed.  The result tells whether the handler now awaits
    [generateSpeech]. *)
Definition handleSpeak_click (text : string) (stop_outcome : Completion unit)
  : Handler bool :=
  fun c =>
    if isPlaying c
    then (stopAudio stop_outcome ;; ret false)%handler c
    else (setIsLoadingAudio true ;;
          emit (CallGenerateSpeech text) ;;
          ret true)%handler c.

(** [handleSpeak], lines 79-115: what runs when [generateSpeech] settles to
    [speech]. *)
Definition handleSpeak_resume `{Host} (speech : Completion string) : Handler unit :=
  finally
    (catch
       (let! base64Audio := lift speech in
        let! ctx := lift (new_AudioContext 24000) in
        set_audioContextRef (Some ctx) ;;
        let! audioBytes := lift (decode base64Audio) in
        let! audioBuffer := lift (pcmToAudioBuffer audioBytes ctx DEFAULT_SAMPLE_RATE) in
        let source := {| buffer := audioBuffer |} in
        emit SourceStart ;;
        set_sourceRef (Some source) ;;
        setIsPlaying true)%handler
       (fun error =>
          (emit ConsoleError ;;
           emit (Alert "No se pudo reproducir el audio."))%handler))
    (setIsLoadingAudio false).

(** [source.onended], lines 98-104. *)
Definition onended : Handler unit :=
  (setIsPlaying false ;; set_sourceRef None)%handler.

(** The cleanup of the [useEffect], lines 48-52, run when the component
    unmounts. *)
Definition unmount (stop_outcome : Completion unit) : Handler unit :=
  stopAudio stop_outcome.

(** What the button shows, lines 146-152. *)
Inductive PlaybackState := Idle | Loading | Playing.

#[global] Instance PlaybackState_eq_dec : EqDecision PlaybackState.
Proof. solve_decision. Defined.

Definition playbackState (c : Component) : PlaybackState :=
  if isLoadingAudio c then Loading
  else if isPlaying c then Playing
  else Idle.

(** The state and the effects a handler leaves. *)
Definition state_after {A} (r : Completion A * Component * list Effect) : Component :=
  snd (fst r).
Definition effects_of {A} (r : Completion A * Component * list Effect) : list Effect :=
  snd r.
Definition completion_of {A} (r : Completion A * Component * list Effect) : Completion A :=
  fst (fst r).

(** *** All the messages on the page *)

(** The components of the rendered messages, in the order of the list. *)
Definition Page := list Component.

Inductive PageEvent :=
| Speak (i : nat) (text : string) (stop_outcome : Completion unit)
| SpeechSettled (i : nat) (speech : Completion string)
| Ended (i : nat).

(** The message whose component an event is delivered to. *)
Definition event_target (ev : PageEvent) : nat :=
  match ev with
  | Speak i _ _ => i
  | SpeechSettled i _ => i
  | Ended i => i
  end.

(** Each component runs its own handlers on its own state and refs. *)
Definition page_step `{Host} (ev : PageEvent) (page : Page) : Page :=
  match ev with
  | Speak i text stop_outcome =>
      alter (fun c => state_after (handleSpeak_click text stop_outcome c)) i page
  | SpeechSettled i speech =>
      alter (fun c => state_after (handleSpeak_resume speech c)) i page
  | Ended i =>
      alter (fun c => state_after (onended c)) i page
  end.

Definition page_run `{Host} (evs : list PageEvent) (page : Page) : Page :=
  foldl (fun p ev => page_step ev p) page evs.

Definition playing_count (page : Page) : nat :=
  length (filter (fun c => playbackState c = Playing) page).

End Playback.
Export Playback.


(** ** [src/App.tsx]: the session *)

Module Session.

Inductive Role := Role_user | Role_model.

(** [ChatMessage] of [types.ts]. *)
Record ChatMessageType := {
  msg_id : string;
  msg_role : Role;
  msg_text : string;
  msg_sources : option (list Source);
  msg_timestamp : Z
}.

(** [SearchState] of [types.ts]; [error] is [string | null]. *)
Record SearchState := {
  isLoading : bool;
  error : option string;
  hasSearched : bool
}.

(** The [useState] cells of [App]. *)
Record App := {
  messages : list ChatMessageType;
  inputValue : string;
  selectedCountry : string;
  selectedState : string;
  searchState : SearchState
}.

Definition initial : App :=
  {| messages := [];
     inputValue := "";
     selectedCountry := "";
     selectedState := "";
     searchState := {| isLoading := false; error := None; hasSearched := false |} |}.

Definition UNEXPECTED_ERROR : string := "Ocurrió un error inesperado.".

(** The arguments of the awaited [searchLegalInfo] call. *)
Record SearchCall := { call_query : string; call_country : string; call_state : string }.

(** The user message of lines 46-51; [now_id] and [now_ts] are what the two
    calls of [Date.now()] return. *)
Definition userMessage (query : string) (now_id now_ts : Z) : ChatMessageType :=
  {| msg_id := Number_toString now_id;
     msg_role := Role_user;
     msg_text := query;
     msg_sources := None;
     msg_timestamp := now_ts |}.

(** The answer message of lines 60-66. *)
Definition aiMessage (response : SearchResult) (now_id now_ts : Z) : ChatMessageType :=
  {| msg_id := Number_toString (now_id + 1);
     msg_role := Role_model;
     msg_text := res_text response;
     msg_sources := Some (res_sources response);
     msg_timestamp := now_ts |}.

(** [handleSearch], lines 38-58: what runs when the form is submitted.  The
    second component is the call the handler now awaits, if any. *)
Definition handleSearch_submit `{Host} (now_id now_ts : Z) (app : App)
  : App * option SearchCall :=
  if negb (truthy (String_trim (inputValue app))) || isLoading (searchState app)
  then (app, None)
  else
    let query := String_trim (inputValue app) in
    ({| messages := messages app ++ [userMessage query now_id now_ts];
        inputValue := "";
        selectedCountry := selectedCountry app;
        selectedState := selectedState app;
        searchState := {| isLoading := true; error := None; hasSearched := true |} |},
     Some {| call_query := query;
             call_country := selectedCountry app;
             call_state := selectedState app |}).

(** [handleSearch], lines 58-76: what runs when [searchLegalInfo] settles to
    [outcome].  Both branches update the state through [prev => ...], that
    is, from the state at that time. *)
Definition handleSearch_settle (outcome : Completion SearchResult) (now_id now_ts : Z)
    (app : App) : App :=
  match outcome with
  | Normal response =>
      {| messages := messages app ++ [aiMessage response now_id now_ts];
         inputValue := inputValue app;
         selectedCountry := selectedCountry app;
         selectedState := selectedState app;
         searchState := {| isLoading := false;
                           error := error (searchState app);
                           hasSearched := hasSearched (searchState app) |} |}
  | Throw e =>
      {| messages := messages app;
         inputValue := inputValue app;
         selectedCountry := selectedCountry app;
         selectedState := selectedState app;
         searchState := {| isLoading := false;
                           error := Some (or_else (Some (message e)) UNEXPECTED_ERROR);
                           hasSearched := hasSearched (searchState app) |} |}
  end.

(** The [onClick] of the header, lines 133-137. *)
Definition reset (app : App) : App :=
  {| messages := [];
     inputValue := "";
     selectedCountry := selectedCountry app;
     selectedState := selectedState app;
     searchState := {| hasSearched := false; isLoading := false; error := None |} |}.

(** The [onChange] handlers and the suggestion buttons. *)
Definition setInputValue (v : string) (app : App) : App :=
  {| messages := messages app; inputValue := v;
     selectedCountry := selectedCountry app; selectedState := selectedState app;
     searchState := searchState app |}.

Definition setSelectedCountry (v : string) (app : App) : App :=
  {| messages := messages app; inputValue := inputValue app;
     selectedCountry := v; selectedState := selectedState app;
     searchState := searchState app |}.

Definition setSelectedState (v : string) (app : App) : App :=
  {| messages := messages app; inputValue := inputValue app;
     selectedCountry := selectedCountry app; selectedState := v;
     searchState := searchState app |}.

(** What the awaited call settles to: [searchLegalInfo] run on the call's
    arguments against the provider. *)
Definition run_call `{Host}
    (generateContent : GenerateContentParameters -> Completion GenerateContentResponse)
    (call : SearchCall) : Completion SearchResult :=
  searchLegalInfo generateContent (call_query call)
    (Some (call_country call)) (Some (call_state call)).

(** What can happen to the session, one event at a time.  [Settle] is the
    continuation of an earlier accepted [Submit]. *)
Inductive SessionEvent :=
| Submit (now_id now_ts : Z)
| Settle (outcome : Completion SearchResult) (now_id now_ts : Z)
| Reset
| Type_ (v : string)
| SelectCountry (v : string)
| SelectState (v : string).

Definition session_step `{Host} (ev : SessionEvent) (app : App) : App :=
  match ev with
  | Submit now_id now_ts => fst (handleSearch_submit now_id now_ts app)
  | Settle outcome now_id now_ts => handleSearch_settle outcome now_id now_ts app
  | Reset => reset app
  | Type_ v => setInputValue v app
  | SelectCountry v => setSelectedCountry v app
  | SelectState v => setSelectedState v app
  end.

Definition session_run `{Host} (evs : list SessionEvent) (app : App) : App :=
  foldl (fun a ev => session_step ev a) app evs.

End Session.
Export Session.

(** ** A concrete host, for running the model on examples *)

Module ModelHost.

(** ASCII white space, which is what the examples use;
    [String.prototype.trim] also strips the Unicode space characters. *)
Definition is_space (c : ascii) : bool :=
  let n := nat_of_ascii c in
  ((n =? 32) || (n =? 9) || (n =? 10) || (n =? 11) || (n =? 12) || (n =? 13))%nat.

Fixpoint trim_left (s : string) : string :=
  match s with
  | String c rest => if is_space c then trim_left rest else s
  | EmptyString => EmptyString
  end.

Fixpoint trim_right (s : string) : string :=
  match s with
  | String c rest =>
      match trim_right rest with
      | EmptyString => if is_space c then EmptyString else String c EmptyString
      | rest' => String c rest'
      end
  | EmptyString => EmptyString
  end.

Definition trim (s : string) : string := trim_right (trim_left s).

(** The value of a character of the base64 alphabet. *)
Definition sextet (c : ascii) : option N :=
  let n := N_of_ascii c in
  if ((65 <=? n) && (n <=? 90))%N then Some (n - 65)%N
  else if ((97 <=? n) && (n <=? 122))%N then Some (n - 71)%N
  else if ((48 <=? n) && (n <=? 57))%N then Some (n + 4)%N
  else if (n =? 43)%N then Some 62%N
  else if (n =? 47)%N then Some 63%N
  else None.

Definition InvalidCharacterError : JsError :=
  {| name := "InvalidCharacterError";
     message := "The string to be decoded is not correctly encoded." |}.

(** Groups of four sextets give three bytes; a rest of two gives one byte,
    a rest of three gives two; a rest of one is an error. *)
Fixpoint decode_sextets (fuel : nat) (l : list N) : option (list ascii) :=
  match fuel with
  | O => None
  | S fuel' =>
      match l with
      | [] => Some []
      | [_] => None
      | [a; b] => Some [ascii_of_N (a * 4 + b / 16)]
      | [a; b; c] =>
          Some [ascii_of_N (a * 4 + b / 16); ascii_of_N ((b mod 16) * 16 + c / 4)]
      | a :: b :: c :: d :: rest =>
          match decode_sextets fuel' rest with
          | Some bytes =>
              Some (ascii_of_N (a * 4 + b / 16)
                    :: ascii_of_N ((b mod 16) * 16 + c / 4)
                    :: ascii_of_N ((c mod 4) * 64 + d)
                    :: bytes)
          | None => None
          end
      end
  end.

Fixpoint sextets (l : list ascii) : option (list N) :=
  match l with
  | [] => Some []
  | c :: rest =>
      match sextet c, sextets rest with
      | Some n, Some ns => Some (n :: ns)
      | _, _ => None
      end
  end.

(** Removes one or two trailing [=] of a string whose length is a multiple
    of four. *)
Definition strip_padding (l : list ascii) : list ascii :=
  if (length l mod 4 =? 0)%nat
  then match rev l with
       | "="%char :: "="%char :: r => rev r
       | "="%char :: r => rev r
       | _ => l
       end
  else l.

(** [atob] on the forgiving-base64 grammar. *)
Definition atob_model (s : string) : Completion string :=
  let l := strip_padding (List.filter (fun c => negb (is_space c)) (list_ascii_of_string s)) in
  match sextets l with
  | Some ns =>
      match decode_sextets (S (length ns)) ns with
      | Some bytes => Normal (string_of_list_ascii bytes)
      | None => Throw InvalidCharacterError
      end
  | None => Throw InvalidCharacterError
  end.

Definition Invalid_URL : JsError :=
  {| name := "TypeError"; message := "Invalid URL" |}.

Fixpoint take_host (s : string) : string :=
  match s with
  | String c rest =>
      if (Ascii.eqb c "/" || Ascii.eqb c "?" || Ascii.eqb c "#" || Ascii.eqb c ":")%char
      then EmptyString
      else String c (take_host rest)
  | EmptyString => EmptyString
  end.

(** [new URL(s).hostname] on the two kinds of string the examples use: an
    absolute [http:] or [https:] URL gives its host; a string with no scheme,
    which the parser rejects for want of a base URL, throws.  URLs of other
    schemes are outside this stand-in and are answered like the latter. *)
Definition hostname_model (s : string) : Completion string :=
  if String.prefix "https://" s then
    match take_host (String.substring 8 (String.length s - 8) s) with
    | EmptyString => Throw Invalid_URL
    | h => Normal h
    end
  else if String.prefix "http://" s then
    match take_host (String.substring 7 (String.length s - 7) s) with
    | EmptyString => Throw Invalid_URL
    | h => Normal h
    end
  else Throw Invalid_URL.

#[local] Instance model_host : Host :=
  {| atob := atob_model;
     URL_hostname := hostname_model;
     String_trim := trim;
     new_AudioContext := fun sampleRate => Normal {| ctx_sampleRate := sampleRate |} |}.

End ModelHost.


(** ** Vocabulary of the statements *)

Module Vocabulary.

(** The uris of the records that carry a non-empty one, in order. *)
Definition usable_uris (chunks : list GroundingChunk) : list string :=
  flat_map
    (fun chunk =>
       match web chunk with
       | Some w => if truthy_opt (web_uri w) then [template (web_uri w)] else []
       | None => []
       end)
    chunks.

(** A record with a non-empty uri, no usable title, and a uri the host's URL
    parser rejects. *)
Definition unparsable `{Host} (chunk : GroundingChunk) : Prop :=
  exists w e,
    web chunk = Some w /\
    truthy_opt (web_uri w) = true /\
    truthy_opt (web_title w) = false /\
    URL_hostname (template (web_uri w)) = Throw e.

(** A provider that answers every request with [response]. *)
Definition answers (response : GenerateContentResponse)
  : GenerateContentParameters -> Completion GenerateContentResponse :=
  fun _ => Normal response.

Definition cited (text : option string) (chunks : list GroundingChunk)
  : GenerateContentResponse :=
  {| resp_text := text;
     candidates :=
       Some [ {| groundingMetadata := Some {| groundingChunks := Some chunks |} |} ] |}.

Definition web_chunk (uri : string) (title : option string) : GroundingChunk :=
  {| web := Some {| web_uri := Some uri; web_title := title |} |}.

(** The submissions of a run, one per pair of clock readings. *)
Definition submissions (clocks : list (Z * Z)) : list SessionEvent :=
  map (fun clock => Submit (fst clock) (snd clock)) clocks.

Definition is_reset (ev : SessionEvent) : bool :=
  match ev with
  | Reset => true
  | _ => false
  end.

(** A component that shows as playing holds a source node, and a component
    that holds a source node holds the context it was made in. *)
Definition holds_output (c : Component) : Prop :=
  (isPlaying c = true -> sourceRef c <> None) /\
  (sourceRef c <> None -> audioContextRef c <> None).

(** The alert of a failed playback. *)
Definition PLAYBACK_ALERT : list Effect :=
  [ConsoleError; Alert "No se pudo reproducir el audio."].

(** The code units of a text written in ASCII. *)
Definition code_units (s : string) : CodeUnits :=
  map (fun c => Z.of_nat (nat_of_ascii c)) (list_ascii_of_string s).

(** What a record with a non-empty uri and a title of its own becomes. *)
Definition titled_sources (chunks : list GroundingChunk) : list Source :=
  flat_map
    (fun chunk =>
       match web chunk with
       | Some w =>
           if truthy_opt (web_uri w)
           then [ {| src_title := web_title w; src_uri := template (web_uri w) |} ]
           else []
       | None => []
       end)
    chunks.

(** Every record that carries a non-empty uri carries a non-empty title. *)
Definition all_titled (chunks : list GroundingChunk) : Prop :=
  Forall
    (fun chunk =>
       forall w, web chunk = Some w ->
                 truthy_opt (web_uri w) = true -> truthy_opt (web_title w) = true)
    chunks.

(** [src] is what the callback makes of [chunk]: the record's uri, and as
    title the record's own when it has one, the host of the uri otherwise. *)
Definition made_from `{Host} (chunk : GroundingChunk) (src : Source) : Prop :=
  exists w t,
    web chunk = Some w /\
    web_uri w = Some (src_uri src) /\
    src_uri src <> "" /\
    src_title src = Some t /\
    ((truthy_opt (web_title w) = true /\ web_title w = Some t) \/
     (truthy_opt (web_title w) = false /\ URL_hostname (src_uri src) = Normal t)).

(** The amplitude kept for the sample [s]: the number [s / 32768.0] stored
    into the channel's [Float32Array]. *)
Definition amplitude (s : Z) : float :=
  Math_fround (PrimFloat.div (Number_of_Z s) 32768%float).

(** The integer re-derived from an amplitude: [Math.round(x * 32768)]. *)
Definition rederive (x : float) : option Z :=
  Math_round (PrimFloat.mul x 32768%float).

(** A byte of a [Uint8Array]. *)
Definition is_byte (b : Z) : Prop := (0 <= b < 256)%Z.

(** A decision procedure for the two facts about one sample: its amplitude
    denotes exactly [s / 32768], and re-deriving gives [s] back. *)
Definition sample_check (s : Z) : bool :=
  match Prim2SF (amplitude s) with
  | S754_zero _ => (s =? 0)%Z
  | S754_finite sg m e =>
      ((e <=? 0) && (cond_Zopp sg (Zpos m) * 32768 =? s * 2 ^ (- e)))%Z
  | _ => false
  end
  && match rederive (amplitude s) with
     | Some z => (z =? s)%Z
     | None => false
     end.

(** [f] on every integer whose binary digits above the lowest [n] are those
    of [acc]. *)
Fixpoint all_bits (n : nat) (acc : Z) (f : Z -> bool) : bool :=
  match n with
  | O => f acc
  | S n' => all_bits n' (2 * acc) f && all_bits n' (2 * acc + 1) f
  end.

End Vocabulary.
Export Vocabulary.

(** * Properties *)

(** ** The query service *)

Section ServiceProperties.
Context `{Host}.

Lemma truthy_nonempty (s : string) : truthy s = true <-> s <> "".
Proof.
  unfold truthy. destruct (String.eqb_spec s ""); simpl; split; congruence.
Qed.

Lemma or_else_truthy (a : option string) (b : string) :
  truthy b = true -> truthy (or_else a b) = true.
Proof.
  intros Hb. destruct a as [s|]; simpl; [|exact Hb].
  destruct (truthy s) eqn:E; [exact E | exact Hb].
Qed.

Lemma or_else_falsy (a : option string) (b : string) :
  truthy_opt a = false -> or_else a b = b.
Proof.
  destruct a as [s|]; simpl; [|reflexivity]. intros ->. reflexivity.
Qed.



Lemma searchLegalInfo_Normal gen query country state r :
  searchLegalInfo gen query country state = Normal r ->
  exists response,
    gen (searchLegalInfo_request query country state) = Normal response /\
    process_response response = Normal r.
Proof.
  unfold searchLegalInfo. intros Hr.
  destruct (gen _) as [response|e]; simpl in Hr; [|discriminate].
  exists response. split; [reflexivity|].
  destruct (process_response response); simpl in Hr; [exact Hr | discriminate].
Qed.

Lemma process_response_Normal response r :
  process_response response = Normal r ->
  res_text r = or_else (resp_text response) FALLBACK_TEXT /\
  match response_chunks response with
  | Some chunks => forEach_chunks chunks [] = Normal (res_sources r)
  | None => res_sources r = []
  end.
Proof.
  unfold process_response. intros Hr.
  destruct (response_chunks response) as [chunks|].
  - destruct (forEach_chunks chunks []) as [sources|e]; simpl in Hr; [|discriminate].
    injection Hr as <-. split; reflexivity.
  - simpl in Hr. injection Hr as <-. split; reflexivity.
Qed.

(** C10: a query that succeeds returns a non-empty text, and the fixed
    fallback when the provider's text is empty or absent. *)
Theorem searchLegalInfo_text_nonempty gen query country state r :
  searchLegalInfo gen query country state = Normal r ->
  res_text r <> "" /\
  (forall response,
     gen (searchLegalInfo_request query country state) = Normal response ->
     truthy_opt (resp_text response) = false ->
     res_text r = "Lo siento, no pude generar una respuesta en este momento.").
Proof.
  intros Hr. apply searchLegalInfo_Normal in Hr as (response & Hgen & Hp).
  apply process_response_Normal in Hp as [Htext _]. split.
  - rewrite Htext. apply truthy_nonempty, or_else_truthy. reflexivity.
  - intros response' Hgen' Hfalsy. rewrite Hgen in Hgen'. injection Hgen' as <-.
    rewrite Htext. apply or_else_falsy. exact Hfalsy.
Qed.

End ServiceProperties.

Lemma searchLegalInfo_text_nonempty_witness :
  res_text {| res_text := FALLBACK_TEXT; res_sources := [] |} <> "" /\
  (forall response,
     answers (cited (Some "") []) (searchLegalInfo_request "consulta" None None)
       = Normal response ->
     truthy_opt (resp_text response) = false ->
     res_text {| res_text := FALLBACK_TEXT; res_sources := [] |} =
     "Lo siento, no pude generar una respuesta en este momento.").
Proof.
  apply (@searchLegalInfo_text_nonempty ModelHost.model_host
           (answers (cited (Some "") [])) "consulta" None None).
  reflexivity.
Defined.

(** ** Source extraction *)

Section ExtractionProperties.
Context `{Host}.

Lemma push_chunk_unparsable sources chunk :
  unparsable chunk -> exists e, push_chunk sources chunk = Throw e.
Proof.
  intros (w & e & Hw & Huri & Htitle & Hhost). exists e.
  unfold push_chunk. rewrite Hw, Huri, Htitle, Hhost. reflexivity.
Qed.

Lemma forEach_chunks_unparsable chunks :
  forall sources chunk,
    In chunk chunks -> unparsable chunk ->
    exists e, forEach_chunks chunks sources = Throw e.
Proof.
  induction chunks as [|c rest IH]; intros sources chunk Hin Hbad; [destruct Hin|].
  simpl. destruct (push_chunk sources c) as [sources'|e] eqn:Hpush; [|eauto].
  destruct Hin as [->|Hin].
  - destruct (push_chunk_unparsable sources chunk Hbad) as [e He]. congruence.
  - eapply IH; eauto.
Qed.

(** C3, as the code has it: one record whose URL does not parse and which has
    no title of its own makes the whole query fail with the generic error;
    no record of the batch is returned. *)
Theorem unparsable_record_fails_query gen query country state response chunks chunk :
  gen (searchLegalInfo_request query country state) = Normal response ->
  response_chunks response = Some chunks ->
  In chunk chunks ->
  unparsable chunk ->
  searchLegalInfo gen query country state = Throw SEARCH_ERROR.
Proof.
  intros Hgen Hchunks Hin Hbad.
  destruct (forEach_chunks_unparsable chunks [] chunk Hin Hbad) as [e He].
  unfold searchLegalInfo. rewrite Hgen. simpl.
  unfold process_response. rewrite Hchunks, He. reflexivity.
Qed.

Lemma push_chunk_uris sources sources' chunk :
  push_chunk sources chunk = Normal sources' ->
  map src_uri sources' = map src_uri sources ++ usable_uris [chunk].
Proof.
  unfold push_chunk, usable_uris. simpl.
  destruct (web chunk) as [w|]; simpl.
  - destruct (truthy_opt (web_uri w)); simpl.
    + destruct (if truthy_opt (web_title w) then _ else _) as [title|e];
        simpl; [|discriminate].
      intros [= <-]. rewrite map_app. reflexivity.
    + intros [= <-]. rewrite app_nil_r. reflexivity.
  - intros [= <-]. rewrite app_nil_r. reflexivity.
Qed.

Lemma forEach_chunks_uris chunks :
  forall sources sources',
    forEach_chunks chunks sources = Normal sources' ->
    map src_uri sources' = map src_uri sources ++ usable_uris chunks.
Proof.
  induction chunks as [|c rest IH]; intros sources sources' Hrun; simpl in Hrun.
  - injection Hrun as <-. unfold usable_uris. simpl. rewrite app_nil_r. reflexivity.
  - destruct (push_chunk sources c) as [sources1|e] eqn:Hpush; [|discriminate].
    apply IH in Hrun. apply push_chunk_uris in Hpush.
    rewrite Hrun, Hpush, <- app_assoc. f_equal.
    unfold usable_uris. simpl. rewrite app_nil_r. reflexivity.
Qed.

(** C4, as the code has it: a successful extraction yields one source per
    record with a non-empty uri, in the order of the records, repeated uris
    included. *)
Theorem sources_follow_records gen query country state response chunks r :
  gen (searchLegalInfo_request query country state) = Normal response ->
  response_chunks response = Some chunks ->
  searchLegalInfo gen query country state = Normal r ->
  map src_uri (res_sources r) = usable_uris chunks.
Proof.
  intros Hgen Hchunks Hr.
  apply searchLegalInfo_Normal in Hr as (response' & Hgen' & Hp).
  rewrite Hgen in Hgen'. injection Hgen' as <-.
  apply process_response_Normal in Hp as [_ Hsources].
  rewrite Hchunks in Hsources.
  apply forEach_chunks_uris in Hsources. exact Hsources.
Qed.

End ExtractionProperties.

(** C3 fails as stated: a titled record and a record whose uri is no URL;
    the query throws instead of returning the titled record. *)
Lemma unparsable_record_not_dropped :
  let chunks := [ web_chunk "https://example.com/x" (Some "Ley X");
                  web_chunk "not a url" None ] in
  URL_hostname (Host := ModelHost.model_host) "not a url" = Throw ModelHost.Invalid_URL /\
  searchLegalInfo (H := ModelHost.model_host)
    (answers (cited (Some "Respuesta") chunks)) "consulta" None None
  = Throw SEARCH_ERROR.
Proof. split; reflexivity. Qed.

Lemma unparsable_record_fails_query_witness :
  searchLegalInfo (H := ModelHost.model_host)
    (answers (cited (Some "Respuesta")
                [ web_chunk "https://example.com/x" (Some "Ley X");
                  web_chunk "not a url" None ]))
    "consulta" None None
  = Throw SEARCH_ERROR.
Proof.
  apply (@unparsable_record_fails_query ModelHost.model_host _ _ _ _
           (cited (Some "Respuesta")
              [ web_chunk "https://example.com/x" (Some "Ley X");
                web_chunk "not a url" None ])
           [ web_chunk "https://example.com/x" (Some "Ley X");
             web_chunk "not a url" None ]
           (web_chunk "not a url" None)).
  - reflexivity.
  - reflexivity.
  - simpl. right. left. reflexivity.
  - exists {| web_uri := Some "not a url"; web_title := None |}, ModelHost.Invalid_URL.
    repeat split; reflexivity.
Defined.

(** C4 fails as stated: two records with one uri give two sources with that
    uri. *)
Lemma repeated_uri_kept_twice :
  let chunks := [ web_chunk "https://example.com/x" (Some "Ley X");
                  web_chunk "https://example.com/x" (Some "Ley X, texto") ] in
  exists r,
    searchLegalInfo (H := ModelHost.model_host)
      (answers (cited (Some "Respuesta") chunks)) "consulta" None None = Normal r /\
    map src_uri (res_sources r) = ["https://example.com/x"; "https://example.com/x"] /\
    ~ NoDup (map src_uri (res_sources r)).
Proof.
  eexists. split; [reflexivity|]. split; [reflexivity|].
  simpl. intros Hnd. apply NoDup_cons_1_1 in Hnd. apply Hnd. left.
Qed.

Lemma sources_follow_records_witness :
  map src_uri
    [ {| src_title := Some "Ley X"; src_uri := "https://example.com/x" |};
      {| src_title := Some "congreso.gob.ar"; src_uri := "https://congreso.gob.ar/ley" |} ]
  = usable_uris [ web_chunk "https://example.com/x" (Some "Ley X");
                  {| web := None |};
                  web_chunk "https://congreso.gob.ar/ley" None ].
Proof.
  apply (@sources_follow_records ModelHost.model_host
           (answers (cited None
              [ web_chunk "https://example.com/x" (Some "Ley X");
                {| web := None |};
                web_chunk "https://congreso.gob.ar/ley" None ]))
           "consulta" None None
           (cited None
              [ web_chunk "https://example.com/x" (Some "Ley X");
                {| web := None |};
                web_chunk "https://congreso.gob.ar/ley" None ])
           _
           {| res_text := FALLBACK_TEXT;
              res_sources :=
                [ {| src_title := Some "Ley X"; src_uri := "https://example.com/x" |};
                  {| src_title := Some "congreso.gob.ar";
                     src_uri := "https://congreso.gob.ar/ley" |} ] |});
    reflexivity.
Defined.

(** ** The session *)

Section SessionProperties.
Context `{Host}.

Lemma handleSearch_submit_accepted app now_id now_ts :
  isLoading (searchState app) = false ->
  String_trim (inputValue app) <> "" ->
  handleSearch_submit now_id now_ts app =
  ({| messages := messages app
                  ++ [userMessage (String_trim (inputValue app)) now_id now_ts];
      inputValue := "";
      selectedCountry := selectedCountry app;
      selectedState := selectedState app;
      searchState := {| isLoading := true; error := None; hasSearched := true |} |},
   Some {| call_query := String_trim (inputValue app);
           call_country := selectedCountry app;
           call_state := selectedState app |}).
Proof.
  intros Hidle Hq. apply truthy_nonempty in Hq.
  unfold handleSearch_submit. rewrite Hq, Hidle. reflexivity.
Qed.

(** C1, as the code has it: the session keeps no generation; an answer that
    arrives after a reset is appended to the emptied list, which then holds
    that one answer. *)
Theorem late_answer_appended_after_reset app now_id now_ts response now_id' now_ts' :
  isLoading (searchState app) = false ->
  String_trim (inputValue app) <> "" ->
  let in_flight := handleSearch_submit now_id now_ts app in
  snd in_flight <> None /\
  messages (reset (fst in_flight)) = [] /\
  messages (handleSearch_settle (Normal response) now_id' now_ts' (reset (fst in_flight)))
  = [aiMessage response now_id' now_ts'].
Proof.
  intros Hidle Hq. simpl.
  rewrite (handleSearch_submit_accepted app now_id now_ts Hidle Hq). simpl.
  repeat split. discriminate.
Qed.

(** C8: when the call of an accepted submission fails, the user's turn is
    the only one added, the session stops loading and shows a non-empty
    message. *)
Theorem failed_query_keeps_user_turn app now_id now_ts e now_id' now_ts' :
  isLoading (searchState app) = false ->
  String_trim (inputValue app) <> "" ->
  let submitted := fst (handleSearch_submit now_id now_ts app) in
  let failed := handleSearch_settle (Throw e) now_id' now_ts' submitted in
  messages submitted
    = messages app ++ [userMessage (String_trim (inputValue app)) now_id now_ts] /\
  messages failed = messages submitted /\
  isLoading (searchState failed) = false /\
  exists msg, error (searchState failed) = Some msg /\ msg <> "".
Proof.
  intros Hidle Hq. simpl.
  rewrite (handleSearch_submit_accepted app now_id now_ts Hidle Hq). simpl.
  repeat split.
  exists (if truthy (message e) then message e else UNEXPECTED_ERROR). split; [reflexivity|].
  destruct (truthy (message e)) eqn:E.
  - apply truthy_nonempty. exact E.
  - discriminate.
Qed.

End SessionProperties.

(** C1 fails as stated: a question is submitted, the header is clicked, the
    answer arrives; the turn list then holds the answer. *)
Lemma reset_does_not_discard_late_answer :
  let answer := {| res_text := "Respuesta"; res_sources := [] |} in
  let typed := setInputValue "Despido injustificado" initial in
  let in_flight := handleSearch_submit (H := ModelHost.model_host) 1000 1000 typed in
  let after_reset := reset (fst in_flight) in
  let settled := handleSearch_settle (Normal answer) 2000 2000 after_reset in
  snd in_flight = Some {| call_query := "Despido injustificado";
                          call_country := ""; call_state := "" |} /\
  messages after_reset = [] /\
  messages settled = [ {| msg_id := "2001"; msg_role := Role_model;
                          msg_text := "Respuesta"; msg_sources := Some [];
                          msg_timestamp := 2000 |} ] /\
  messages settled <> [].
Proof. repeat split. discriminate. Qed.

Lemma late_answer_appended_after_reset_witness :
  let app := setInputValue "Despido injustificado" initial in
  let response := {| res_text := "Respuesta"; res_sources := [] |} in
  let in_flight := handleSearch_submit (H := ModelHost.model_host) 1000 1000 app in
  snd in_flight <> None /\
  messages (reset (fst in_flight)) = [] /\
  messages (handleSearch_settle (Normal response) 2000 2000 (reset (fst in_flight)))
  = [aiMessage response 2000 2000].
Proof.
  apply (@late_answer_appended_after_reset ModelHost.model_host
           (setInputValue "Despido injustificado" initial) 1000 1000
           {| res_text := "Respuesta"; res_sources := [] |} 2000 2000).
  - reflexivity.
  - discriminate.
Defined.

Lemma failed_query_keeps_user_turn_witness :
  let app := setInputValue "  Despido injustificado " initial in
  let submitted := fst (handleSearch_submit (H := ModelHost.model_host) 1000 1001 app) in
  let failed := handleSearch_settle (Throw SEARCH_ERROR) 2000 2000 submitted in
  messages submitted
    = messages app ++ [userMessage "Despido injustificado" 1000 1001] /\
  messages failed = messages submitted /\
  isLoading (searchState failed) = false /\
  exists msg, error (searchState failed) = Some msg /\ msg <> "".
Proof.
  apply (@failed_query_keeps_user_turn ModelHost.model_host
           (setInputValue "  Despido injustificado " initial) 1000 1001
           SEARCH_ERROR 2000 2000).
  - reflexivity.
  - discriminate.
Defined.

(** ** Playback *)

Section PlaybackProperties.
Context `{Host}.

Lemma playing_fields c :
  playbackState c = Playing -> isLoadingAudio c = false /\ isPlaying c = true.
Proof.
  unfold playbackState. destruct (isLoadingAudio c), (isPlaying c); intros E;
    try discriminate; split; reflexivity.
Qed.

(** C7: pressing the button of a playing message stops it: the handler
    returns without throwing whatever [stop()] does, awaits nothing, calls no
    synthesis, and leaves the message idle with both refs cleared. *)
Theorem speak_while_playing_cancels c text stop_outcome :
  playbackState c = Playing ->
  let run := handleSpeak_click text stop_outcome c in
  completion_of run = Normal false /\
  playbackState (state_after run) = Idle /\
  (forall t, ~ In (CallGenerateSpeech t) (effects_of run)) /\
  sourceRef (state_after run) = None /\
  audioContextRef (state_after run) = None.
Proof.
  intros Hp. apply playing_fields in Hp as [Hl Hpl].
  unfold handleSpeak_click. rewrite Hpl.
  unfold stopAudio, source_stop, seq_bind, catch, emit, lift, ret,
    set_sourceRef, set_audioContextRef, setIsPlaying,
    completion_of, state_after, effects_of, playbackState.
  destruct c as [pl ld ctx src]; simpl in *. subst ld.
  destruct src, ctx, stop_outcome; simpl;
    repeat split; try reflexivity; intros t Hin; simpl in Hin;
    intuition discriminate.
Qed.

End PlaybackProperties.

Lemma speak_while_playing_cancels_witness :
  let c := {| isPlaying := true; isLoadingAudio := false;
              audioContextRef := Some {| ctx_sampleRate := 24000 |};
              sourceRef :=
                Some {| buffer := {| numberOfChannels := 1; buf_length := 2;
                                     buf_sampleRate := 24000;
                                     channelData := map amplitude [1; -1]%Z |} |} |} in
  let run := handleSpeak_click "Respuesta" (Throw InvalidStateError) c in
  (c = state_after
         (handleSpeak_resume (H := ModelHost.model_host) (Normal "AQD//w==")
            (state_after (handleSpeak_click "Respuesta" (Normal tt) mounted))) /\
   effects_of run = [SourceStop; ContextClose]) /\
  (completion_of run = Normal false /\
   playbackState (state_after run) = Idle /\
   (forall t, ~ In (CallGenerateSpeech t) (effects_of run)) /\
   sourceRef (state_after run) = None /\
   audioContextRef (state_after run) = None).
Proof.
  split; [split; reflexivity|].
  apply (speak_while_playing_cancels
           {| isPlaying := true; isLoadingAudio := false;
              audioContextRef := Some {| ctx_sampleRate := 24000 |};
              sourceRef :=
                Some {| buffer := {| numberOfChannels := 1; buf_length := 2;
                                     buf_sampleRate := 24000;
                                     channelData := map amplitude [1; -1]%Z |} |} |}
           "Respuesta" (Throw InvalidStateError)).
  reflexivity.
Defined.

(** C2 fails as stated: two messages are asked to speak one after the other
    and both end up playing. *)
Lemma two_turns_play_at_once :
  let page :=
    page_run (H := ModelHost.model_host)
      [ Speak 0 "uno" (Normal tt); SpeechSettled 0 (Normal "AAAAAA==");
        Speak 1 "dos" (Normal tt); SpeechSettled 1 (Normal "AAAAAA==") ]
      [mounted; mounted] in
  map playbackState page = [Playing; Playing] /\
  playing_count page = 2 /\
  ~ playing_count page <= 1.
Proof.
  split; [reflexivity|]. split; [reflexivity|].
  change (~ 2 <= 1). lia.
Qed.


(** ** Decoding *)

Section LoopLemmas.
Context {B : Type}.

Lemma for_loop_insert (f : nat -> B) (n : nat) :
  forall (i : nat) (l : list B),
    length l = i + n ->
    for_loop n i (fun i l => <[i := f i]> l) l = take i l ++ map f (seq i n).
Proof.
  induction n as [|n IH]; intros i l Hlen; simpl.
  - rewrite app_nil_r. rewrite take_ge; [reflexivity | lia].
  - rewrite IH by (rewrite length_insert; lia).
    rewrite (take_S_r _ i (f i)) by (apply list_lookup_insert_eq; lia).
    rewrite take_insert_ge by lia. rewrite <- app_assoc. reflexivity.
Qed.

Lemma for_loop_fill (f : nat -> B) (n : nat) (l : list B) :
  length l = n ->
  for_loop n 0 (fun i l => <[i := f i]> l) l = map f (seq 0 n).
Proof.
  intros Hlen. rewrite for_loop_insert by (simpl; lia). reflexivity.
Qed.

End LoopLemmas.

Lemma all_bits_spec (n : nat) :
  forall (acc : Z) (f : Z -> bool),
    all_bits n acc f = true ->
    forall z, (acc * 2 ^ Z.of_nat n <= z < (acc + 1) * 2 ^ Z.of_nat n)%Z -> f z = true.
Proof.
  induction n as [|n IH]; intros acc f Hall z Hz.
  - simpl in *. assert (z = acc) by lia. subst. exact Hall.
  - simpl in Hall. apply andb_true_iff in Hall as [H0 H1].
    rewrite Nat2Z.inj_succ, Z.pow_succ_r in Hz by lia.
    assert (0 < 2 ^ Z.of_nat n)%Z by (apply Z.pow_pos_nonneg; lia).
    destruct (Z_lt_ge_dec z ((2 * acc + 1) * 2 ^ Z.of_nat n)).
    + apply (IH _ _ H0). nia.
    + apply (IH _ _ H1). nia.
Qed.

Lemma all_samples_checked : all_bits 16 0 (fun z => sample_check (z - 32768)) = true.
Proof. vm_cast_no_check (eq_refl true). Qed.

Lemma sample_check_int16 (s : Z) :
  (-32768 <= s < 32768)%Z -> sample_check s = true.
Proof.
  intros Hs.
  replace s with ((s + 32768) - 32768)%Z by lia.
  apply (all_bits_spec 16 0 (fun z => sample_check (z - 32768)) all_samples_checked).
  change (2 ^ Z.of_nat 16)%Z with 65536%Z. lia.
Qed.

Lemma dyadic_value (M e s : Z) :
  (e <= 0)%Z -> (M * 32768 = s * 2 ^ (- e))%Z ->
  Qeq (inject_Z M * Qpower 2 e) (Qmake s 32768).
Proof.
  intros He HM.
  replace e with (- (- e))%Z by lia.
  rewrite Qpower_opp.
  assert (Hp : (0 < 2 ^ (- e))%Z) by (apply Z.pow_pos_nonneg; lia).
  change 2%Q with (inject_Z 2).
  rewrite <- Zpower_Qpower by lia.
  destruct (2 ^ (- e))%Z as [|p|p] eqn:E; try lia.
  unfold Qeq, Qmult, Qinv, inject_Z. simpl. lia.
Qed.

Lemma amplitude_exact (s : Z) :
  (-32768 <= s < 32768)%Z ->
  (exists q, Number_value (amplitude s) = Some q /\ Qeq q (Qmake s 32768)) /\
  rederive (amplitude s) = Some s.
Proof.
  intros Hs. pose proof (sample_check_int16 s Hs) as Hc.
  unfold sample_check in Hc. apply andb_true_iff in Hc as [Hv Hr]. split.
  - unfold Number_value.
    destruct (Prim2SF (amplitude s)) as [sg| sg | |sg m e]; try discriminate.
    + apply Z.eqb_eq in Hv. subst s. exists 0%Q. split; reflexivity.
    + apply andb_true_iff in Hv as [He HM].
      apply Z.leb_le in He. apply Z.eqb_eq in HM.
      eexists. split; [reflexivity|]. apply dyadic_value; assumption.
  - destruct (rederive (amplitude s)) as [z|]; [|discriminate].
    apply Z.eqb_eq in Hr. congruence.
Qed.

Lemma int16_of_bytes_range (lo hi : Z) :
  is_byte lo -> is_byte hi -> (-32768 <= int16_of_bytes lo hi < 32768)%Z.
Proof.
  unfold is_byte, int16_of_bytes. intros Hlo Hhi.
  destruct (Z.ltb_spec (lo + 256 * hi) 32768); lia.
Qed.

Lemma int16_view_range (data : list Z) :
  Forall is_byte data -> Forall (fun s => (-32768 <= s < 32768)%Z) (int16_view data).
Proof.
  revert data. fix IH 1. intros [|lo [|hi rest]] Hb; simpl; try constructor.
  - inversion Hb as [|? ? Hlo Hb']. inversion Hb' as [|? ? Hhi _].
    apply int16_of_bytes_range; assumption.
  - apply IH. inversion Hb as [|? ? _ Hb']. inversion Hb'. assumption.
Qed.

Lemma int16_view_length (data : list Z) :
  length data mod 2 = 0 -> length data = 2 * length (int16_view data).
Proof.
  revert data. fix IH 1. intros [|lo [|hi rest]] Hlen; try reflexivity.
  - discriminate.
  - simpl. rewrite (IH rest); [lia|]. simpl length in Hlen.
    replace (S (S (length rest))) with (length rest + 1 * 2) in Hlen by lia.
    rewrite Nat.Div0.mod_add in Hlen. exact Hlen.
Qed.

Lemma normalized_samples (pcm16 : list Z) :
  map (normalized_sample pcm16) (seq 0 (length pcm16)) = map amplitude pcm16.
Proof.
  apply list_eq. intros i. rewrite !list_lookup_fmap.
  destruct (pcm16 !! i) as [s|] eqn:E.
  - rewrite lookup_seq_lt by (eapply lookup_lt_Some; eauto). simpl.
    unfold normalized_sample. rewrite E. reflexivity.
  - rewrite lookup_seq_ge by (apply lookup_ge_None; assumption). reflexivity.
Qed.

Lemma pcmToAudioBuffer_even (data : list Z) (ctx : AudioContext) :
  length data mod 2 = 0 -> data <> [] ->
  pcmToAudioBuffer data ctx DEFAULT_SAMPLE_RATE =
  Normal {| numberOfChannels := 1;
            buf_length := Z.of_nat (length (int16_view data));
            buf_sampleRate := 24000;
            channelData := map amplitude (int16_view data) |}.
Proof.
  intros Heven Hne.
  pose proof (int16_view_length data Heven) as Hlen.
  assert (Hpos : 1 <= length (int16_view data)).
  { destruct (int16_view data); [|simpl; lia].
    destruct data; [congruence | discriminate Hlen]. }
  unfold pcmToAudioBuffer, new_Int16Array.
  rewrite Heven. cbn [Nat.eqb bind].
  unfold createBuffer, DEFAULT_SAMPLE_RATE.
  replace (1 <=? Z.of_nat (length (int16_view data)))%Z with true
    by (symmetry; apply Z.leb_le; lia).
  cbn [Z.leb Z.compare Pos.compare Pos.compare_cont andb bind
       numberOfChannels buf_length buf_sampleRate channelData].
  rewrite for_loop_fill by (rewrite length_replicate; lia).
  rewrite normalized_samples. reflexivity.
Qed.

(** C5: a non-empty byte sequence of even length decodes; the sample kept
    for the 16-bit little-endian integer [s] is a number worth exactly
    [s / 32768], and rounding that sample times 32768 gives an integer within
    1 of [s] (in fact [s] itself). *)
Theorem pcm_samples_normalized (data : list Z) (ctx : AudioContext) :
  Forall is_byte data ->
  length data mod 2 = 0 ->
  data <> [] ->
  exists audioBuffer,
    pcmToAudioBuffer data ctx DEFAULT_SAMPLE_RATE = Normal audioBuffer /\
    Forall2
      (fun x s =>
         (exists q, Number_value x = Some q /\ Qeq q (Qmake s 32768)) /\
         (exists z, rederive x = Some z /\ (Z.abs (z - s) <= 1)%Z))
      (channelData audioBuffer) (int16_view data).
Proof.
  intros Hbytes Heven Hne. eexists. split.
  - apply pcmToAudioBuffer_even; assumption.
  - cbn [channelData]. apply Forall2_fmap_l, Forall_Forall2_diag.
    eapply Forall_impl; [apply int16_view_range; exact Hbytes|].
    intros s Hs. destruct (amplitude_exact s Hs) as [Hv Hr]. split; [exact Hv|].
    exists s. split; [exact Hr | lia].
Qed.

Lemma pcm_samples_normalized_witness :
  exists audioBuffer,
    pcmToAudioBuffer [1; 0; 255; 255; 0; 128; 255; 127]%Z {| ctx_sampleRate := 24000 |}
      DEFAULT_SAMPLE_RATE = Normal audioBuffer /\
    Forall2
      (fun x s =>
         (exists q, Number_value x = Some q /\ Qeq q (Qmake s 32768)) /\
         (exists z, rederive x = Some z /\ (Z.abs (z - s) <= 1)%Z))
      (channelData audioBuffer) (int16_view [1; 0; 255; 255; 0; 128; 255; 127]%Z).
Proof.
  apply (pcm_samples_normalized [1; 0; 255; 255; 0; 128; 255; 127]%Z).
  - repeat constructor; unfold is_byte; lia.
  - reflexivity.
  - discriminate.
Defined.

Section DecodeProperties.
Context `{Host}.

(** C6: a payload that decodes to an odd number of bytes always fails, and
    always with the [RangeError] of the [Int16Array] constructor, which is
    the code's form of a truncated-audio error. *)
Theorem odd_length_fails_RangeError base64 bytes ctx sampleRate :
  decode base64 = Normal bytes ->
  length bytes mod 2 = 1 ->
  pcmToAudioBuffer bytes ctx sampleRate = Throw Int16Array_RangeError /\
  (let* audioBytes := decode base64 in
   pcmToAudioBuffer audioBytes ctx sampleRate)%completion
  = Throw Int16Array_RangeError.
Proof.
  intros Hdec Hodd.
  assert (Hpcm : pcmToAudioBuffer bytes ctx sampleRate = Throw Int16Array_RangeError).
  { unfold pcmToAudioBuffer, new_Int16Array. rewrite Hodd. reflexivity. }
  split; [exact Hpcm|]. rewrite Hdec. exact Hpcm.
Qed.

End DecodeProperties.

Lemma odd_length_fails_RangeError_witness :
  pcmToAudioBuffer [0; 0; 0]%Z {| ctx_sampleRate := 24000 |} DEFAULT_SAMPLE_RATE
  = Throw Int16Array_RangeError /\
  (let* audioBytes := decode (H := ModelHost.model_host) "AAAA" in
   pcmToAudioBuffer audioBytes {| ctx_sampleRate := 24000 |} DEFAULT_SAMPLE_RATE)%completion
  = Throw Int16Array_RangeError.
Proof.
  apply (@odd_length_fails_RangeError ModelHost.model_host "AAAA" [0; 0; 0]%Z);
    reflexivity.
Defined.

(** ** More on the query service *)





Section MoreServiceProperties.
Context `{Host}.

(** Whatever goes wrong, the provider failing or a uri not parsing, the
    caller gets the same fixed error and never the original one. *)
Theorem searchLegalInfo_masks_errors gen query country state :
  match searchLegalInfo gen query country state with
  | Normal _ => True
  | Throw e => e = SEARCH_ERROR
  end /\
  (forall e, gen (searchLegalInfo_request query country state) = Throw e ->
             searchLegalInfo gen query country state = Throw SEARCH_ERROR).
Proof.
  unfold searchLegalInfo, try_catch. split.
  - destruct (bind _ _); [exact I | reflexivity].
  - intros e ->. reflexivity.
Qed.

Lemma push_chunk_titled sources chunk :
  (forall w, web chunk = Some w ->
             truthy_opt (web_uri w) = true -> truthy_opt (web_title w) = true) ->
  push_chunk sources chunk = Normal (sources ++ titled_sources [chunk]).
Proof.
  intros Ht. unfold push_chunk, titled_sources. simpl.
  destruct (web chunk) as [w|]; [|rewrite app_nil_r; reflexivity].
  destruct (truthy_opt (web_uri w)) eqn:Hu; [|rewrite !app_nil_r; reflexivity].
  specialize (Ht w eq_refl Hu). rewrite Ht. simpl.
  destruct (web_title w) as [t|]; [reflexivity | discriminate].
Qed.

Lemma forEach_chunks_titled chunks :
  all_titled chunks ->
  forall sources,
    forEach_chunks chunks sources = Normal (sources ++ titled_sources chunks).
Proof.
  induction 1 as [|chunk rest Ht _ IH]; intros sources; simpl.
  - rewrite app_nil_r. reflexivity.
  - rewrite (push_chunk_titled sources chunk Ht). rewrite IH.
    rewrite <- app_assoc. unfold titled_sources. simpl.
    rewrite app_nil_r. reflexivity.
Qed.

(** When every cited record has a title of its own, no uri is parsed: the
    query succeeds on any host, whatever the uris look like, and returns the
    records' own uris and titles in order. *)
Theorem titled_records_need_no_parsing gen query country state response chunks :
  gen (searchLegalInfo_request query country state) = Normal response ->
  response_chunks response = Some chunks ->
  all_titled chunks ->
  searchLegalInfo gen query country state =
  Normal {| res_text := or_else (resp_text response) FALLBACK_TEXT;
            res_sources := titled_sources chunks |}.
Proof.
  intros Hgen Hchunks Ht.
  unfold searchLegalInfo. rewrite Hgen. simpl.
  unfold process_response. rewrite Hchunks.
  rewrite (forEach_chunks_titled chunks Ht []). reflexivity.
Qed.

Lemma push_chunk_made sources sources' chunk :
  push_chunk sources chunk = Normal sources' ->
  sources' = sources \/ exists src, sources' = sources ++ [src] /\ made_from chunk src.
Proof.
  unfold push_chunk.
  destruct (web chunk) as [w|] eqn:Hw; [|intros [= <-]; left; reflexivity].
  destruct (truthy_opt (web_uri w)) eqn:Hu; [|intros [= <-]; left; reflexivity].
  destruct (web_uri w) as [u|] eqn:Huri; [|discriminate]. simpl in Hu. simpl.
  destruct (truthy_opt (web_title w)) eqn:Ht.
  - simpl. intros [= <-]. right. eexists. split; [reflexivity|].
    destruct (web_title w) as [t|] eqn:Htitle; [|discriminate].
    exists w, t. simpl. rewrite Hw, Huri, Htitle. simpl.
    repeat split; try reflexivity.
    + apply truthy_nonempty. exact Hu.
    + left. split; [exact Ht | reflexivity].
  - destruct (URL_hostname u) as [t|e] eqn:Hhost; simpl; [|discriminate].
    intros [= <-]. right. eexists. split; [reflexivity|].
    exists w, t. simpl. rewrite Hw, Huri, Ht.
    repeat split; try reflexivity.
    + apply truthy_nonempty. exact Hu.
    + right. split; [reflexivity | exact Hhost].
Qed.

Lemma forEach_chunks_made chunks :
  forall sources sources',
    forEach_chunks chunks sources = Normal sources' ->
    exists added,
      sources' = sources ++ added /\
      Forall (fun src => exists chunk, In chunk chunks /\ made_from chunk src) added.
Proof.
  induction chunks as [|c rest IH]; intros sources sources' Hrun; simpl in Hrun.
  - injection Hrun as <-. exists []. rewrite app_nil_r. split; [reflexivity|constructor].
  - destruct (push_chunk sources c) as [sources1|e] eqn:Hpush; [|discriminate].
    apply IH in Hrun as (added & -> & Hadded).
    assert (Hrest : Forall (fun src => exists chunk, In chunk (c :: rest)
                                                     /\ made_from chunk src) added).
    { eapply Forall_impl; [exact Hadded|].
      intros src (chunk & Hin & Hm). exists chunk. split; [right; exact Hin | exact Hm]. }
    apply push_chunk_made in Hpush as [->|(src & -> & Hsrc)].
    + exists added. split; [reflexivity | exact Hrest].
    + exists (src :: added). rewrite <- app_assoc. split; [reflexivity|].
      constructor; [|exact Hrest]. exists c. split; [left; reflexivity | exact Hsrc].
Qed.

(** Every source of a successful query comes from a record of the response:
    it has that record's non-empty uri and always a title, the record's own
    when it has one and the host of its uri otherwise. *)
Theorem sources_made_from_records gen query country state r :
  searchLegalInfo gen query country state = Normal r ->
  Forall
    (fun src =>
       src_uri src <> "" /\
       exists response chunks chunk,
         gen (searchLegalInfo_request query country state) = Normal response /\
         response_chunks response = Some chunks /\
         In chunk chunks /\
         made_from chunk src)
    (res_sources r).
Proof.
  intros Hr. apply searchLegalInfo_Normal in Hr as (response & Hgen & Hp).
  apply process_response_Normal in Hp as [_ Hsources].
  destruct (response_chunks response) as [chunks|] eqn:Hchunks.
  - apply forEach_chunks_made in Hsources as (added & Heq & Hadded).
    simpl in Heq. rewrite Heq.
    eapply Forall_impl; [exact Hadded|].
    intros src (chunk & Hin & Hm). split.
    + destruct Hm as (w & t & _ & _ & Hne & _). exact Hne.
    + exists response, chunks, chunk. auto.
  - rewrite Hsources. constructor.
Qed.

End MoreServiceProperties.

Lemma searchLegalInfo_masks_errors_witness :
  let gen := fun _ : GenerateContentParameters =>
               Throw (A := GenerateContentResponse) (Error "429 Too Many Requests") in
  match searchLegalInfo (H := ModelHost.model_host) gen "consulta" None None with
  | Normal _ => True
  | Throw e => e = SEARCH_ERROR
  end /\
  (forall e, gen (searchLegalInfo_request "consulta" None None) = Throw e ->
             searchLegalInfo (H := ModelHost.model_host) gen "consulta" None None
             = Throw SEARCH_ERROR).
Proof.
  apply (@searchLegalInfo_masks_errors ModelHost.model_host
           (fun _ => Throw (Error "429 Too Many Requests")) "consulta" None None).
Defined.

Lemma titled_records_need_no_parsing_witness :
  searchLegalInfo (H := ModelHost.model_host)
    (answers (cited (Some "Respuesta") [ web_chunk "no es una url" (Some "Ley X") ]))
    "consulta" None None
  = Normal {| res_text := "Respuesta";
              res_sources := [ {| src_title := Some "Ley X"; src_uri := "no es una url" |} ] |}.
Proof.
  apply (@titled_records_need_no_parsing ModelHost.model_host _ "consulta" None None
           (cited (Some "Respuesta") [ web_chunk "no es una url" (Some "Ley X") ])
           [ web_chunk "no es una url" (Some "Ley X") ]).
  - reflexivity.
  - reflexivity.
  - repeat constructor. simpl. intros w [= <-] _. reflexivity.
Defined.

Lemma sources_made_from_records_witness :
  Forall
    (fun src =>
       src_uri src <> "" /\
       exists response chunks chunk,
         answers (cited None [ web_chunk "https://congreso.gob.ar/ley" None ])
           (searchLegalInfo_request "consulta" None None) = Normal response /\
         response_chunks response = Some chunks /\
         In chunk chunks /\
         made_from (H := ModelHost.model_host) chunk src)
    [ {| src_title := Some "congreso.gob.ar"; src_uri := "https://congreso.gob.ar/ley" |} ].
Proof.
  apply (@sources_made_from_records ModelHost.model_host
           (answers (cited None [ web_chunk "https://congreso.gob.ar/ley" None ]))
           "consulta" None None
           {| res_text := FALLBACK_TEXT;
              res_sources :=
                [ {| src_title := Some "congreso.gob.ar";
                     src_uri := "https://congreso.gob.ar/ley" |} ] |}).
  reflexivity.
Defined.

(** ** Speech synthesis *)

Lemma span_until_spec (stop : Z) (l : CodeUnits) :
  forall run after,
    span_until stop l = (run, after) ->
    l = run ++ after /\
    Forall (fun u => u <> stop) run /\
    (after = [] \/ exists rest, after = stop :: rest).
Proof.
  induction l as [|u rest IH]; intros run after Hs; simpl in Hs.
  - injection Hs as <- <-. repeat split; [constructor | left; reflexivity].
  - destruct (Z.eqb_spec u stop) as [->|Hne].
    + injection Hs as <- <-. repeat split; [constructor | right; eauto].
    + destruct (span_until stop rest) as [run' after'] eqn:E.
      injection Hs as <- <-.
      destruct (IH run' after' eq_refl) as (-> & Hrun & Hafter).
      repeat split; [constructor; assumption | exact Hafter].
Qed.

Lemma span_until_run (stop : Z) (run rest : CodeUnits) :
  Forall (fun u => u <> stop) run ->
  span_until stop (run ++ stop :: rest) = (run, stop :: rest).
Proof.
  induction 1 as [|u run Hu _ IH]; simpl.
  - rewrite Z.eqb_refl. reflexivity.
  - destruct (Z.eqb_spec u stop); [contradiction|]. rewrite IH. reflexivity.
Qed.

Lemma match_link_Some (l label after : CodeUnits) :
  match_link l = Some (label, after) ->
  exists url,
    l = LBRACKET :: label ++ RBRACKET :: LPAREN :: url ++ RPAREN :: after.
Proof.
  unfold match_link. destruct l as [|u rest]; [discriminate|].
  destruct (Z.eqb_spec u LBRACKET) as [->|]; [|discriminate].
  destruct (span_until RBRACKET rest) as [run after1] eqn:E1.
  destruct run as [|r0 run]; [discriminate|].
  destruct after1 as [|r [|p rest']]; try discriminate.
  destruct (Z.eqb_spec r RBRACKET) as [->|]; [|discriminate].
  destruct (Z.eqb_spec p LPAREN) as [->|]; [|discriminate]. simpl.
  destruct (span_until RPAREN rest') as [url after2] eqn:E2.
  destruct url as [|u0 url]; [discriminate|].
  destruct after2 as [|q rest'']; [discriminate|].
  destruct (Z.eqb_spec q RPAREN) as [->|]; [|discriminate].
  intros [= <- <-]. exists (u0 :: url).
  apply span_until_spec in E1 as (-> & _ & _).
  apply span_until_spec in E2 as (-> & _ & _).
  reflexivity.
Qed.

Lemma match_link_shorter (l label after : CodeUnits) :
  match_link l = Some (label, after) -> length after < length l.
Proof.
  intros Hm. apply match_link_Some in Hm as (url & ->).
  simpl. rewrite !length_app. simpl. rewrite !length_app. simpl. lia.
Qed.



Lemma replace_links_fuel_enough (n : nat) :
  forall (m : nat) (l : CodeUnits),
    length l <= n -> length l <= m ->
    replace_links_fuel n l = replace_links_fuel m l.
Proof.
  induction n as [|n IH]; intros m l Hn Hm.
  - destruct l; [|simpl in Hn; lia]. destruct m; reflexivity.
  - destruct m as [|m]; [destruct l; [reflexivity | simpl in Hm; lia]|].
    simpl. destruct l as [|u rest]; [reflexivity|].
    destruct (match_link (u :: rest)) as [[label after]|] eqn:E.
    + apply match_link_shorter in E. f_equal. apply IH; lia.
    + f_equal. simpl in Hn, Hm. apply IH; lia.
Qed.

Lemma replace_links_cons_None (u : Z) (rest : CodeUnits) :
  match_link (u :: rest) = None ->
  replace_links (u :: rest) = u :: replace_links rest.
Proof.
  intros Hm. unfold replace_links. simpl length.
  cbn [replace_links_fuel]. rewrite Hm. reflexivity.
Qed.

Lemma replace_links_cons_Some (u : Z) (rest label after : CodeUnits) :
  match_link (u :: rest) = Some (label, after) ->
  replace_links (u :: rest) = label ++ replace_links after.
Proof.
  intros Hm. unfold replace_links. simpl length.
  cbn [replace_links_fuel]. rewrite Hm. f_equal.
  apply match_link_shorter in Hm. simpl in Hm.
  apply replace_links_fuel_enough; lia.
Qed.

Lemma replace_links_plain_prefix (pre rest : CodeUnits) :
  Forall (fun u => u <> LBRACKET) pre ->
  replace_links (pre ++ rest) = pre ++ replace_links rest.
Proof.
  induction 1 as [|u pre Hu _ IH]; [reflexivity|].
  simpl. rewrite replace_links_cons_None.
  - rewrite IH. reflexivity.
  - unfold match_link. destruct (Z.eqb_spec u LBRACKET); [contradiction | reflexivity].
Qed.

(** A markdown link is replaced by its label: the first [[] of the text,
    a label without []], [](], a target without [)], and [)]. *)
Theorem link_collapsed_to_label (pre label url post : CodeUnits) :
  Forall (fun u => u <> LBRACKET) pre ->
  label <> [] -> Forall (fun u => u <> RBRACKET) label ->
  url <> [] -> Forall (fun u => u <> RPAREN) url ->
  replace_links (pre ++ LBRACKET :: label ++ RBRACKET :: LPAREN :: url ++ RPAREN :: post)
  = pre ++ label ++ replace_links post.
Proof.
  intros Hpre Hl Hlabel Hu Hurl.
  rewrite replace_links_plain_prefix by exact Hpre. f_equal.
  apply replace_links_cons_Some.
  unfold match_link. rewrite Z.eqb_refl.
  rewrite (span_until_run RBRACKET label _ Hlabel).
  destruct label as [|l0 label]; [congruence|].
  rewrite !Z.eqb_refl. simpl andb. cbv iota.
  rewrite (span_until_run RPAREN url _ Hurl).
  destruct url as [|u0 url]; [congruence|].
  rewrite Z.eqb_refl. reflexivity.
Qed.

(** A text of at most 1000 code units with no marker and no [[] is sent as
    it is. *)
Theorem plain_text_sent_unchanged (text : CodeUnits) :
  Forall (fun u => is_marker u = false /\ u <> LBRACKET) text ->
  length text <= 1000 ->
  speech_text (generateSpeech_request text) = text.
Proof.
  intros Hplain Hlen. cbn [generateSpeech_request speech_text]. unfold cleanText.
  assert (Hs : strip_markers text = text).
  { unfold strip_markers. clear Hlen.
    induction Hplain as [|u rest [Hm _] _ IH]; [reflexivity|].
    simpl. rewrite Hm. simpl. rewrite IH. reflexivity. }
  rewrite Hs.
  assert (Hr : replace_links text = text).
  { rewrite <- (app_nil_r text) at 1. rewrite replace_links_plain_prefix.
    - unfold replace_links. simpl. apply app_nil_r.
    - eapply Forall_impl; [exact Hplain|]. intros u [_ Hb]. exact Hb. }
  rewrite Hr. apply take_ge. lia.
Qed.

(** [generateSpeech] resolves only to a non-empty payload, the one the model
    returned; it passes the model's own error on unchanged, and throws "No
    audio generated" when the response carries no payload. *)
Theorem generateSpeech_outcomes
    (gen : SpeechParameters -> Completion SpeechResponse) (text : CodeUnits) :
  (forall b, generateSpeech gen text = Normal b ->
             b <> "" /\
             exists response,
               gen (generateSpeech_request text) = Normal response /\
               response_audio response = Some b) /\
  (forall e, gen (generateSpeech_request text) = Throw e ->
             generateSpeech gen text = Throw e) /\
  (forall response,
     gen (generateSpeech_request text) = Normal response ->
     truthy_opt (response_audio response) = false ->
     generateSpeech gen text = Throw NO_AUDIO).
Proof.
  unfold generateSpeech. repeat split.
  - destruct (gen _) as [response|e]; simpl in H; [|discriminate].
    destruct (response_audio response) as [a|]; simpl in H; [|discriminate].
    destruct (truthy a) eqn:E; simpl in H; [|discriminate].
    injection H as <-. apply truthy_nonempty. exact E.
  - destruct (gen _) as [response|e]; simpl in H; [|discriminate].
    exists response. split; [reflexivity|].
    destruct (response_audio response) as [a|]; simpl in H; [|discriminate].
    destruct (truthy a); simpl in H; [|discriminate]. congruence.
  - intros e ->. reflexivity.
  - intros response -> Hf. simpl. rewrite Hf. reflexivity.
Qed.

Lemma link_collapsed_to_label_witness :
  replace_links (code_units "Ver [Ley X](https://example.com/x) y [mas](https://example.com/y).")
  = code_units "Ver Ley X y mas.".
Proof.
  exact (link_collapsed_to_label
           (code_units "Ver ") (code_units "Ley X") (code_units "https://example.com/x")
           (code_units " y [mas](https://example.com/y).")
           ltac:(repeat constructor; discriminate)
           ltac:(discriminate)
           ltac:(repeat constructor; discriminate)
           ltac:(discriminate)
           ltac:(repeat constructor; discriminate)).
Defined.

Lemma plain_text_sent_unchanged_witness :
  speech_text (generateSpeech_request (code_units "El articulo 43 protege el amparo."))
  = code_units "El articulo 43 protege el amparo.".
Proof.
  apply (plain_text_sent_unchanged (code_units "El articulo 43 protege el amparo.")).
  - repeat constructor; discriminate.
  - simpl. lia.
Defined.

(** ** More on decoding *)

Lemma charCodeAt_String (c : ascii) (s : string) (i : nat) :
  charCodeAt (String c s) (S i) = charCodeAt s i.
Proof. reflexivity. Qed.

Lemma char_codes (s : string) :
  map (fun i => ToUint8 (charCodeAt s i)) (seq 0 (String.length s))
  = map (fun c => Z.of_nat (nat_of_ascii c)) (list_ascii_of_string s).
Proof.
  induction s as [|c s IH]; [reflexivity|].
  simpl String.length. simpl list_ascii_of_string.
  rewrite <- cons_seq, <- fmap_S_seq. cbn [map].
  change (@fmap list _ nat nat S (seq 0 (String.length s)))
    with (map S (seq 0 (String.length s))).
  rewrite map_map. f_equal.
  - unfold charCodeAt. simpl. apply Z.mod_small.
    pose proof (nat_ascii_bounded c). lia.
  - rewrite <- IH. apply map_ext. intros i. rewrite charCodeAt_String. reflexivity.
Qed.

Section MoreDecodeProperties.
Context `{Host}.

Lemma decode_Normal (base64 binaryString : string) :
  atob base64 = Normal binaryString ->
  decode base64 =
  Normal (map (fun c => Z.of_nat (nat_of_ascii c)) (list_ascii_of_string binaryString)).
Proof.
  intros Hatob. unfold decode. rewrite Hatob. cbn [bind].
  rewrite for_loop_fill by apply length_replicate.
  rewrite char_codes. reflexivity.
Qed.

Lemma length_list_ascii_of_string (s : string) :
  length (list_ascii_of_string s) = String.length s.
Proof. induction s; simpl; congruence. Qed.

(** [decode] fails exactly when [atob] does, with its error; otherwise it
    returns the character codes of the decoded string, one byte each. *)
Theorem decode_bytes (base64 : string) :
  match atob base64 with
  | Normal binaryString =>
      exists bytes,
        decode base64 = Normal bytes /\
        bytes = map (fun c => Z.of_nat (nat_of_ascii c)) (list_ascii_of_string binaryString) /\
        length bytes = String.length binaryString /\
        Forall is_byte bytes
  | Throw e => decode base64 = Throw e
  end.
Proof.
  destruct (atob base64) as [s|e] eqn:Hatob.
  - eexists. split; [apply decode_Normal; exact Hatob|].
    split; [reflexivity|]. split.
    + rewrite length_map. apply length_list_ascii_of_string.
    + apply List.Forall_forall. intros b Hin. apply in_map_iff in Hin as (c & <- & _).
      unfold is_byte. pose proof (nat_ascii_bounded c). lia.
  - unfold decode. rewrite Hatob. reflexivity.
Qed.

End MoreDecodeProperties.

(** The buffer made from a valid byte sequence has one channel at the
    requested 24000 Hz and one frame per pair of bytes. *)
Theorem audio_buffer_shape (data : list Z) (ctx : AudioContext) :
  length data mod 2 = 0 ->
  data <> [] ->
  exists audioBuffer,
    pcmToAudioBuffer data ctx DEFAULT_SAMPLE_RATE = Normal audioBuffer /\
    numberOfChannels audioBuffer = 1%Z /\
    buf_sampleRate audioBuffer = 24000%Z /\
    (2 * buf_length audioBuffer = Z.of_nat (length data))%Z /\
    Z.of_nat (length (channelData audioBuffer)) = buf_length audioBuffer.
Proof.
  intros Heven Hne. eexists. split; [apply pcmToAudioBuffer_even; assumption|].
  cbn [numberOfChannels buf_sampleRate buf_length channelData].
  rewrite length_map. pose proof (int16_view_length data Heven). repeat split; lia.
Qed.

Lemma audio_buffer_shape_witness :
  exists audioBuffer,
    pcmToAudioBuffer [1; 0; 255; 255]%Z {| ctx_sampleRate := 24000 |} DEFAULT_SAMPLE_RATE
      = Normal audioBuffer /\
    numberOfChannels audioBuffer = 1%Z /\
    buf_sampleRate audioBuffer = 24000%Z /\
    (2 * buf_length audioBuffer = Z.of_nat (length [1; 0; 255; 255]%Z))%Z /\
    Z.of_nat (length (channelData audioBuffer)) = buf_length audioBuffer.
Proof.
  apply (audio_buffer_shape [1; 0; 255; 255]%Z); [reflexivity | discriminate].
Defined.

(** Every amplitude of a decoded buffer lies in [[-1, 1)]: the divisor
    32768 lets -1 be reached and keeps 1 out. *)
Theorem amplitudes_in_range (data : list Z) (ctx : AudioContext) (audioBuffer : AudioBuffer) :
  Forall is_byte data ->
  pcmToAudioBuffer data ctx DEFAULT_SAMPLE_RATE = Normal audioBuffer ->
  Forall
    (fun x => exists q, Number_value x = Some q /\ (-1 <= q)%Q /\ (q < 1)%Q)
    (channelData audioBuffer).
Proof.
  intros Hbytes Hrun.
  assert (Heven : length data mod 2 = 0).
  { unfold pcmToAudioBuffer, new_Int16Array in Hrun.
    destruct (Nat.eqb_spec (length data mod 2) 0); [assumption | discriminate]. }
  assert (Hne : data <> []).
  { intros ->. discriminate Hrun. }
  rewrite (pcmToAudioBuffer_even data ctx Heven Hne) in Hrun. injection Hrun as <-.
  cbn [channelData]. apply Forall_fmap.
  eapply Forall_impl; [apply int16_view_range; exact Hbytes|].
  intros s Hs. destruct (amplitude_exact s Hs) as [(q & Hv & Hq) _].
  exists q. split; [exact Hv|]. rewrite Hq. unfold Qle, Qlt. cbn [Qnum Qden]. cbv beta in Hs. lia.
Qed.

Lemma amplitudes_in_range_witness :
  Forall
    (fun x => exists q, Number_value x = Some q /\ (-1 <= q)%Q /\ (q < 1)%Q)
    (map amplitude [-32768; 32767]%Z).
Proof.
  apply (amplitudes_in_range [0; 128; 255; 127]%Z {| ctx_sampleRate := 24000 |}
           {| numberOfChannels := 1; buf_length := 2; buf_sampleRate := 24000;
              channelData := map amplitude [-32768; 32767]%Z |}).
  - repeat constructor; unfold is_byte; lia.
  - reflexivity.
Defined.

(** ** More on playback *)

(** [stopAudio] never throws, whatever [stop()] does; it stops the source
    and closes the context exactly when the component holds them, clears both
    refs, and a second call in a row does nothing at all. *)
Theorem stopAudio_releases_once (c : Component) (stop1 stop2 : Completion unit) :
  let first := stopAudio stop1 c in
  let second := stopAudio stop2 (state_after first) in
  completion_of first = Normal tt /\
  state_after first = {| isPlaying := false; isLoadingAudio := isLoadingAudio c;
                         audioContextRef := None; sourceRef := None |} /\
  effects_of first =
    match sourceRef c with Some _ => [SourceStop] | None => [] end
    ++ match audioContextRef c with Some _ => [ContextClose] | None => [] end /\
  completion_of second = Normal tt /\
  state_after second = state_after first /\
  effects_of second = [].
Proof.
  destruct c as [pl ld [ctx|] [src|]], stop1; repeat split.
Qed.

Section MorePlaybackProperties.
Context `{Host}.

Lemma handleSpeak_resume_cases (speech : Completion string) (c : Component) :
  let failed (ctx : option AudioContext) :=
    (Normal tt,
     {| isPlaying := isPlaying c; isLoadingAudio := false;
        audioContextRef := ctx; sourceRef := sourceRef c |},
     PLAYBACK_ALERT) in
  handleSpeak_resume speech c =
  match speech with
  | Throw _ => failed (audioContextRef c)
  | Normal base64Audio =>
      match new_AudioContext 24000 with
      | Throw _ => failed (audioContextRef c)
      | Normal ctx =>
          match decode base64Audio with
          | Throw _ => failed (Some ctx)
          | Normal audioBytes =>
              match pcmToAudioBuffer audioBytes ctx DEFAULT_SAMPLE_RATE with
              | Throw _ => failed (Some ctx)
              | Normal audioBuffer =>
                  (Normal tt,
                   {| isPlaying := true; isLoadingAudio := false;
                      audioContextRef := Some ctx;
                      sourceRef := Some {| buffer := audioBuffer |} |},
                   [SourceStart])
              end
          end
      end
  end.
Proof.
  unfold handleSpeak_resume, finally, catch, seq_bind, lift, emit,
    set_audioContextRef, set_sourceRef, setIsPlaying, setIsLoadingAudio.
  destruct speech as [b|e]; [|reflexivity]. cbv beta iota zeta.
  destruct (new_AudioContext 24000) as [ctx|e]; [|reflexivity]. cbv beta iota zeta.
  cbn [isPlaying isLoadingAudio audioContextRef sourceRef app].
  destruct (decode b) as [bytes|e]; [|reflexivity]. cbv beta iota zeta.
  destruct (pcmToAudioBuffer bytes ctx DEFAULT_SAMPLE_RATE) as [buf|e]; reflexivity.
Qed.

(** The continuation of [handleSpeak] never throws and always ends with the
    spinner off, whatever the synthesis and the decoding did. *)
Theorem handleSpeak_resume_settles (speech : Completion string) (c : Component) :
  completion_of (handleSpeak_resume speech c) = Normal tt /\
  isLoadingAudio (state_after (handleSpeak_resume speech c)) = false /\
  (effects_of (handleSpeak_resume speech c) = [SourceStart] \/
   effects_of (handleSpeak_resume speech c) = PLAYBACK_ALERT).
Proof.
  rewrite handleSpeak_resume_cases. cbv zeta.
  destruct speech as [b|e]; [|repeat split; right; reflexivity].
  destruct (new_AudioContext 24000) as [ctx|e]; [|repeat split; right; reflexivity].
  destruct (decode b) as [bytes|e]; [|repeat split; right; reflexivity].
  destruct (pcmToAudioBuffer bytes ctx DEFAULT_SAMPLE_RATE) as [buf|e];
    repeat split; [left | right]; reflexivity.
Qed.

(** Pressing the button of an idle message shows the spinner and asks for
    one synthesis, of the message's text; if the synthesis fails, the
    component is back exactly where it was, after one alert. *)
Theorem failed_synthesis_restores (c : Component) (text : string)
    (stop_outcome : Completion unit) (e : JsError) :
  playbackState c = Idle ->
  let clicked := handleSpeak_click text stop_outcome c in
  let settled := handleSpeak_resume (Throw e) (state_after clicked) in
  completion_of clicked = Normal true /\
  effects_of clicked = [CallGenerateSpeech text] /\
  playbackState (state_after clicked) = Loading /\
  state_after settled = c /\
  effects_of settled = PLAYBACK_ALERT.
Proof.
  intros Hidle. cbv zeta. rewrite handleSpeak_resume_cases. cbv zeta.
  unfold playbackState in Hidle.
  destruct c as [pl ld ctx src]. simpl in Hidle.
  destruct ld; [discriminate|]. destruct pl; [discriminate|].
  repeat split.
Qed.

(** A payload that decodes to a non-empty, even number of bytes starts
    playback: the message shows as playing and holds the new context and a
    source whose buffer carries the normalized samples. *)
Theorem valid_payload_plays (c : Component) (base64Audio binaryString : string)
    (ctx : AudioContext) :
  new_AudioContext 24000 = Normal ctx ->
  atob base64Audio = Normal binaryString ->
  String.length binaryString mod 2 = 0 ->
  binaryString <> "" ->
  let settled := handleSpeak_resume (Normal base64Audio) c in
  let pcm16 := int16_view (map (fun ch => Z.of_nat (nat_of_ascii ch))
                             (list_ascii_of_string binaryString)) in
  playbackState (state_after settled) = Playing /\
  audioContextRef (state_after settled) = Some ctx /\
  sourceRef (state_after settled) =
    Some {| buffer := {| numberOfChannels := 1;
                         buf_length := Z.of_nat (length pcm16);
                         buf_sampleRate := 24000;
                         channelData := map amplitude pcm16 |} |} /\
  effects_of settled = [SourceStart].
Proof.
  intros Hctx Hatob Heven Hne. cbv zeta. rewrite handleSpeak_resume_cases. cbv zeta.
  rewrite Hctx. rewrite (decode_Normal base64Audio binaryString Hatob).
  rewrite pcmToAudioBuffer_even.
  - repeat split.
  - rewrite length_map, length_list_ascii_of_string. exact Heven.
  - destruct binaryString; [congruence | discriminate].
Qed.

(** When the payload cannot be decoded, the message is not started and the
    user is alerted; the context created for it stays in the ref, not
    closed, until [stopAudio] runs. *)
Theorem undecodable_payload_keeps_context (c : Component) (base64Audio : string)
    (ctx : AudioContext) (e : JsError) :
  new_AudioContext 24000 = Normal ctx ->
  (let* audioBytes := decode base64Audio in
   pcmToAudioBuffer audioBytes ctx DEFAULT_SAMPLE_RATE)%completion = Throw e ->
  handleSpeak_resume (Normal base64Audio) c =
  (Normal tt,
   {| isPlaying := isPlaying c; isLoadingAudio := false;
      audioContextRef := Some ctx; sourceRef := sourceRef c |},
   PLAYBACK_ALERT).
Proof.
  intros Hctx Hfail. rewrite handleSpeak_resume_cases. cbv zeta. rewrite Hctx.
  destruct (decode base64Audio) as [bytes|e1]; [|reflexivity].
  cbn [bind] in Hfail. rewrite Hfail. reflexivity.
Qed.

Lemma holds_output_step (ev : PageEvent) (c : Component) :
  holds_output c ->
  holds_output
    (match ev with
     | Speak _ text stop_outcome => state_after (handleSpeak_click text stop_outcome c)
     | SpeechSettled _ speech => state_after (handleSpeak_resume speech c)
     | Ended _ => state_after (onended c)
     end).
Proof.
  intros [Hp Hs]. destruct ev as [i text stop_outcome|i speech|i].
  - destruct c as [pl ld ctx src]. simpl in *.
    destruct pl; [|split; simpl; [discriminate | exact Hs]].
    destruct src, ctx, stop_outcome; split; simpl; congruence.
  - rewrite handleSpeak_resume_cases. cbv zeta.
    destruct speech as [b|e]; [|split; assumption].
    destruct (new_AudioContext 24000) as [ctx|e]; [|split; assumption].
    destruct (decode b) as [bytes|e]; [|split; simpl; [assumption | discriminate]].
    destruct (pcmToAudioBuffer bytes ctx DEFAULT_SAMPLE_RATE) as [buf|e];
      split; simpl; try discriminate; assumption.
  - split; simpl; [discriminate | congruence].
Qed.

(** Whatever happens on a page of freshly mounted messages, in any order, a
    message that shows as playing holds its source node, and a message that
    holds a source node holds its audio context. *)
Theorem playing_holds_output (evs : list PageEvent) (n : nat) :
  Forall holds_output (page_run evs (replicate n mounted)).
Proof.
  assert (Hinit : Forall holds_output (replicate n mounted)).
  { apply Forall_replicate. split; simpl; [discriminate | congruence]. }
  revert Hinit. generalize (replicate n mounted). unfold page_run.
  induction evs as [|ev evs IH]; intros page Hpage; [exact Hpage|].
  simpl. apply IH.
  pose proof (holds_output_step ev) as Hstep.
  destruct ev; simpl in *; apply Forall_alter; auto.
Qed.

End MorePlaybackProperties.

Lemma failed_synthesis_restores_witness :
  let clicked := handleSpeak_click "Respuesta" (Normal tt) mounted in
  let settled := handleSpeak_resume (H := ModelHost.model_host)
                   (Throw NO_AUDIO) (state_after clicked) in
  completion_of clicked = Normal true /\
  effects_of clicked = [CallGenerateSpeech "Respuesta"] /\
  playbackState (state_after clicked) = Loading /\
  state_after settled = mounted /\
  effects_of settled = PLAYBACK_ALERT.
Proof.
  apply (@failed_synthesis_restores ModelHost.model_host mounted "Respuesta"
           (Normal tt) NO_AUDIO).
  reflexivity.
Defined.

Lemma valid_payload_plays_witness :
  let settled := handleSpeak_resume (H := ModelHost.model_host)
                   (Normal "AQD//w==") mounted in
  let pcm16 := int16_view (map (fun ch => Z.of_nat (nat_of_ascii ch))
                             (list_ascii_of_string
                                (String "001" (String "000" (String "255" (String "255" "")))))) in
  playbackState (state_after settled) = Playing /\
  audioContextRef (state_after settled) = Some {| ctx_sampleRate := 24000 |} /\
  sourceRef (state_after settled) =
    Some {| buffer := {| numberOfChannels := 1;
                         buf_length := Z.of_nat (length pcm16);
                         buf_sampleRate := 24000;
                         channelData := map amplitude pcm16 |} |} /\
  effects_of settled = [SourceStart].
Proof.
  apply (@valid_payload_plays ModelHost.model_host mounted "AQD//w=="
           (String "001" (String "000" (String "255" (String "255" ""))))
           {| ctx_sampleRate := 24000 |}).
  - reflexivity.
  - reflexivity.
  - reflexivity.
  - discriminate.
Defined.

Lemma undecodable_payload_keeps_context_witness :
  handleSpeak_resume (H := ModelHost.model_host) (Normal "AAAA") mounted =
  (Normal tt,
   {| isPlaying := false; isLoadingAudio := false;
      audioContextRef := Some {| ctx_sampleRate := 24000 |}; sourceRef := None |},
   PLAYBACK_ALERT).
Proof.
  apply (@undecodable_payload_keeps_context ModelHost.model_host mounted "AAAA"
           {| ctx_sampleRate := 24000 |} Int16Array_RangeError).
  - reflexivity.
  - reflexivity.
Defined.

(** ** More on the session *)

Lemma Number_toString_inj (n m : Z) :
  Number_toString n = Number_toString m -> n = m.
Proof.
  unfold Number_toString. intros Heq.
  assert (Hparse : forall z, NilZero.int_of_string (NilZero.string_of_int (Z.to_int z))
                             = Some (Z.to_int z)).
  { intros z. apply NilZero.isi; destruct z; simpl; try discriminate;
      intros [= Hnil]; exact (Unsigned.to_uint_nonnil _ Hnil). }
  apply DecimalZ.to_int_inj.
  pose proof (Hparse n) as Hn. rewrite Heq, Hparse in Hn. congruence.
Qed.

Section MoreSessionProperties.
Context `{Host}.

Lemma handleSearch_submit_rejected app now_id now_ts :
  isLoading (searchState app) = true \/ String_trim (inputValue app) = "" ->
  handleSearch_submit now_id now_ts app = (app, None).
Proof.
  intros Hrej. unfold handleSearch_submit.
  destruct Hrej as [-> | ->]; [rewrite orb_true_r|]; reflexivity.
Qed.

(** A submission made while a query is in flight, or with a blank input,
    changes nothing and calls nothing, however often it is repeated:
    submissions are rejected, not queued. *)
Theorem rejected_submissions_change_nothing (app : App) (clocks : list (Z * Z)) :
  isLoading (searchState app) = true \/ String_trim (inputValue app) = "" ->
  session_run (submissions clocks) app = app /\
  (forall now_id now_ts, snd (handleSearch_submit now_id now_ts app) = None).
Proof.
  intros Hrej. split.
  - unfold session_run, submissions.
    induction clocks as [|clock clocks IH]; [reflexivity|].
    simpl. rewrite handleSearch_submit_rejected by exact Hrej. exact IH.
  - intros. rewrite handleSearch_submit_rejected by exact Hrej. reflexivity.
Qed.

Lemma session_step_appends (ev : SessionEvent) (app : App) :
  is_reset ev = false ->
  exists added,
    messages (session_step ev app) = messages app ++ added /\ length added <= 1.
Proof.
  intros Hev. destruct ev as [a b|outcome a b| |v|v|v]; simpl; try discriminate.
  - unfold handleSearch_submit.
    destruct (negb _ || _); simpl; [exists [] | eexists]; split;
      try reflexivity; try (rewrite app_nil_r; reflexivity); simpl; lia.
  - destruct outcome; simpl; [eexists | exists []]; split;
      try reflexivity; try (rewrite app_nil_r; reflexivity); simpl; lia.
  - exists []. rewrite app_nil_r. split; [reflexivity | simpl; lia].
  - exists []. rewrite app_nil_r. split; [reflexivity | simpl; lia].
  - exists []. rewrite app_nil_r. split; [reflexivity | simpl; lia].
Qed.

(** Between two resets the turn list only grows at its end, by at most one
    turn per event: no turn is dropped, reordered or changed. *)
Theorem turns_append_only (evs : list SessionEvent) (app : App) :
  forallb (fun ev => negb (is_reset ev)) evs = true ->
  exists added,
    messages (session_run evs app) = messages app ++ added /\
    length added <= length evs.
Proof.
  unfold session_run. revert app.
  induction evs as [|ev evs IH]; intros app Hevs.
  - exists []. rewrite app_nil_r. split; [reflexivity | simpl; lia].
  - simpl in Hevs. apply andb_true_iff in Hevs as [Hev Hevs].
    apply negb_true_iff in Hev.
    destruct (session_step_appends ev app Hev) as (added1 & Heq1 & Hlen1).
    destruct (IH (session_step ev app) Hevs) as (added2 & Heq2 & Hlen2).
    exists (added1 ++ added2). simpl. rewrite Heq2, Heq1, <- app_assoc.
    split; [reflexivity|]. rewrite length_app. lia.
Qed.

(** Once a query was submitted the session stays in its chat view until the
    header is clicked. *)
Theorem hasSearched_until_reset (evs : list SessionEvent) (app : App) :
  forallb (fun ev => negb (is_reset ev)) evs = true ->
  hasSearched (searchState app) = true ->
  hasSearched (searchState (session_run evs app)) = true.
Proof.
  unfold session_run. revert app.
  induction evs as [|ev evs IH]; intros app Hevs Hs; [exact Hs|].
  simpl in Hevs. apply andb_true_iff in Hevs as [Hev Hevs].
  simpl. apply IH; [exact Hevs|].
  destruct ev as [a b|outcome a b| |v|v|v]; simpl; try discriminate; try exact Hs.
  - unfold handleSearch_submit. destruct (negb _ || _); simpl; [exact Hs | reflexivity].
  - destruct outcome; simpl; exact Hs.
Qed.

Lemma searchLegalInfo_Throw gen query country state e :
  searchLegalInfo gen query country state = Throw e -> e = SEARCH_ERROR.
Proof.
  unfold searchLegalInfo, try_catch.
  destruct (bind _ _); [discriminate | congruence].
Qed.

(** A query that is answered adds exactly the user's turn and the answer, in
    that order; the answer carries the sources of the result and a non-empty
    text, and the session is left idle without an error. *)
Theorem answered_query_adds_pair gen app now_id now_ts now_id' now_ts' call r :
  isLoading (searchState app) = false ->
  String_trim (inputValue app) <> "" ->
  snd (handleSearch_submit now_id now_ts app) = Some call ->
  run_call gen call = Normal r ->
  let answered :=
    handleSearch_settle (Normal r) now_id' now_ts'
      (fst (handleSearch_submit now_id now_ts app)) in
  messages answered =
    messages app ++ [ userMessage (String_trim (inputValue app)) now_id now_ts;
                      aiMessage r now_id' now_ts' ] /\
  msg_text (aiMessage r now_id' now_ts') <> "" /\
  msg_sources (aiMessage r now_id' now_ts') = Some (res_sources r) /\
  searchState answered = {| isLoading := false; error := None; hasSearched := true |}.
Proof.
  intros Hidle Hq Hcall Hrun. cbv zeta.
  rewrite (handleSearch_submit_accepted app now_id now_ts Hidle Hq) in *.
  simpl in *. rewrite <- app_assoc. repeat split.
  unfold run_call in Hrun.
  apply searchLegalInfo_Normal in Hrun as (response & _ & Hp).
  apply process_response_Normal in Hp as [-> _].
  apply truthy_nonempty, or_else_truthy. reflexivity.
Qed.

(** Whatever makes the query fail, the session shows the service's one fixed
    message; the handler's own fallback text is never shown. *)
Theorem failed_query_shows_fixed_message gen call e now_id now_ts app :
  run_call gen call = Throw e ->
  error (searchState (handleSearch_settle (Throw e) now_id now_ts app)) =
  Some "Hubo un error al consultar el asistente legal. Por favor intenta de nuevo.".
Proof.
  intros Hrun. apply searchLegalInfo_Throw in Hrun. subst e. reflexivity.
Qed.

(** With no country selected and no state typed, the provider receives the
    trimmed question and nothing else. *)
Theorem global_search_sends_question app now_id now_ts :
  isLoading (searchState app) = false ->
  String_trim (inputValue app) <> "" ->
  selectedCountry app = "" ->
  selectedState app = "" ->
  exists call,
    snd (handleSearch_submit now_id now_ts app) = Some call /\
    contents (searchLegalInfo_request (call_query call)
                (Some (call_country call)) (Some (call_state call)))
    = String_trim (inputValue app).
Proof.
  intros Hidle Hq Hc Hs.
  rewrite (handleSearch_submit_accepted app now_id now_ts Hidle Hq).
  eexists. split; [reflexivity|]. simpl. rewrite Hc, Hs. reflexivity.
Qed.

End MoreSessionProperties.

(** When the clock does not go back, a question and its answer get
    different ids. *)
Theorem question_and_answer_ids_differ (query : string) (r : SearchResult)
    (now_id now_ts now_id' now_ts' : Z) :
  (now_id <= now_id')%Z ->
  msg_id (userMessage query now_id now_ts) <> msg_id (aiMessage r now_id' now_ts').
Proof.
  intros Hclock Heq. simpl in Heq. apply Number_toString_inj in Heq. lia.
Qed.

Lemma rejected_submissions_change_nothing_witness :
  let loading := fst (handleSearch_submit (H := ModelHost.model_host) 1000 1000
                        (setInputValue "Despido injustificado" initial)) in
  let app := setInputValue "Otra pregunta" loading in
  session_run (H := ModelHost.model_host) (submissions [(1001, 1001); (1002, 1002)]%Z) app
  = app /\
  (forall now_id now_ts,
     snd (handleSearch_submit (H := ModelHost.model_host) now_id now_ts app) = None).
Proof.
  apply (@rejected_submissions_change_nothing ModelHost.model_host
           (setInputValue "Otra pregunta"
              (fst (handleSearch_submit (H := ModelHost.model_host) 1000 1000
                      (setInputValue "Despido injustificado" initial))))
           [(1001, 1001); (1002, 1002)]%Z).
  left. reflexivity.
Defined.

Lemma turns_append_only_witness :
  let evs := [ Type_ "Despido injustificado"; Submit 1000 1000;
               Settle (Normal {| res_text := "Respuesta"; res_sources := [] |}) 2000 2000;
               SelectCountry "Chile"; Type_ "Y en Chile"; Submit 3000 3000 ] in
  exists added,
    messages (session_run (H := ModelHost.model_host) evs initial)
    = messages initial ++ added /\
    length added <= length evs.
Proof.
  apply (@turns_append_only ModelHost.model_host
           [ Type_ "Despido injustificado"; Submit 1000 1000;
             Settle (Normal {| res_text := "Respuesta"; res_sources := [] |}) 2000 2000;
             SelectCountry "Chile"; Type_ "Y en Chile"; Submit 3000 3000 ]
           initial).
  reflexivity.
Defined.

Lemma hasSearched_until_reset_witness :
  let app := fst (handleSearch_submit (H := ModelHost.model_host) 1000 1000
                    (setInputValue "Despido injustificado" initial)) in
  hasSearched (searchState
    (session_run (H := ModelHost.model_host)
       [ Settle (Throw SEARCH_ERROR) 2000 2000; Type_ "Otra"; Submit 3000 3000 ] app))
  = true.
Proof.
  apply (@hasSearched_until_reset ModelHost.model_host
           [ Settle (Throw SEARCH_ERROR) 2000 2000; Type_ "Otra"; Submit 3000 3000 ]
           (fst (handleSearch_submit (H := ModelHost.model_host) 1000 1000
                   (setInputValue "Despido injustificado" initial))));
    reflexivity.
Defined.

Lemma answered_query_adds_pair_witness :
  let app := setSelectedCountry "Argentina" (setInputValue " Amparo " initial) in
  let r := {| res_text := "Respuesta";
              res_sources := [ {| src_title := Some "Ley X";
                                  src_uri := "https://example.com/x" |} ] |} in
  let answered :=
    handleSearch_settle (Normal r) 2000 2000
      (fst (handleSearch_submit (H := ModelHost.model_host) 1000 1000 app)) in
  messages answered =
    messages app ++ [ userMessage "Amparo" 1000 1000; aiMessage r 2000 2000 ] /\
  msg_text (aiMessage r 2000 2000) <> "" /\
  msg_sources (aiMessage r 2000 2000) = Some (res_sources r) /\
  searchState answered = {| isLoading := false; error := None; hasSearched := true |}.
Proof.
  apply (@answered_query_adds_pair ModelHost.model_host
           (answers (cited (Some "Respuesta")
                       [ web_chunk "https://example.com/x" (Some "Ley X") ]))
           (setSelectedCountry "Argentina" (setInputValue " Amparo " initial))
           1000 1000 2000 2000
           {| call_query := "Amparo"; call_country := "Argentina"; call_state := "" |}
           {| res_text := "Respuesta";
              res_sources := [ {| src_title := Some "Ley X";
                                  src_uri := "https://example.com/x" |} ] |}).
  - reflexivity.
  - discriminate.
  - reflexivity.
  - reflexivity.
Defined.

Lemma failed_query_shows_fixed_message_witness :
  error (searchState
           (handleSearch_settle (Throw SEARCH_ERROR) 2000 2000
              (fst (handleSearch_submit (H := ModelHost.model_host) 1000 1000
                      (setInputValue "Amparo" initial))))) =
  Some "Hubo un error al consultar el asistente legal. Por favor intenta de nuevo.".
Proof.
  apply (@failed_query_shows_fixed_message ModelHost.model_host
           (fun _ => Throw (Error "fetch failed"))
           {| call_query := "Amparo"; call_country := ""; call_state := "" |}
           SEARCH_ERROR 2000 2000).
  reflexivity.
Defined.

Lemma global_search_sends_question_witness :
  exists call,
    snd (handleSearch_submit (H := ModelHost.model_host) 1000 1000
           (setInputValue "  Amparo " initial)) = Some call /\
    contents (searchLegalInfo_request (call_query call)
                (Some (call_country call)) (Some (call_state call)))
    = String_trim (Host := ModelHost.model_host) (inputValue (setInputValue "  Amparo " initial)).
Proof.
  apply (@global_search_sends_question ModelHost.model_host
           (setInputValue "  Amparo " initial) 1000 1000).
  - reflexivity.
  - discriminate.
  - reflexivity.
  - reflexivity.
Defined.

Lemma question_and_answer_ids_differ_witness :
  (1000 <= 1000)%Z /\
  msg_id (userMessage "Amparo" 1000 1000)
  <> msg_id (aiMessage {| res_text := "Respuesta"; res_sources := [] |} 1000 1000).
Proof.
  split; [lia|].
  apply (question_and_answer_ids_differ "Amparo"
           {| res_text := "Respuesta"; res_sources := [] |} 1000 1000 1000 1000).
  lia.
Defined.

(** ** Several messages on one page *)

Lemma playing_count_one (page : Page) :
  forall (j : nat) (b : Component),
    page !! j = Some b -> playbackState b = Playing -> 1 <= playing_count page.
Proof.
  unfold playing_count, Page in *.
  induction page as [|c page IH]; intros j b Hj Hb; [discriminate|].
  destruct j as [|j]; simpl in Hj.
  - injection Hj as ->. rewrite filter_cons_True by exact Hb. simpl. lia.
  - specialize (IH j b Hj Hb). rewrite filter_cons.
    destruct (decide (playbackState c = Playing)); simpl; lia.
Qed.

Lemma playing_count_two (page : Page) :
  forall (i j : nat) (a b : Component),
    i <> j ->
    page !! i = Some a -> playbackState a = Playing ->
    page !! j = Some b -> playbackState b = Playing ->
    2 <= playing_count page.
Proof.
  induction page as [|c page IH]; intros i j a b Hne Hi Ha Hj Hb; [discriminate|].
  destruct i as [|i], j as [|j]; simpl in Hi, Hj; try congruence.
  - injection Hi as ->. pose proof (playing_count_one page j b Hj Hb) as H1.
    unfold playing_count, Page in *. rewrite filter_cons_True by exact Ha. simpl. lia.
  - injection Hj as ->. pose proof (playing_count_one page i a Hi Ha) as H1.
    unfold playing_count, Page in *. rewrite filter_cons_True by exact Hb. simpl. lia.
  - assert (Hne' : i <> j) by congruence.
    specialize (IH i j a b Hne' Hi Ha Hj Hb).
    unfold playing_count, Page in *. rewrite filter_cons.
    destruct (decide (playbackState c = Playing)); simpl; lia.
Qed.

Section PageProperties.
Context `{Host}.

(** C2, as the code has it: when an idle message is asked to speak while
    another message is playing and its payload is valid, its handlers ask for
    the synthesis and start its own source and stop nothing; it ends up
    playing, the other message is left exactly as it was, still playing, and
    the page then has two messages playing at once. *)
Theorem second_turn_plays_beside_first
    (page : Page) (i j : nat) (ci cj : Component)
    (text : string) (stop_outcome : Completion unit)
    (base64Audio binaryString : string) (ctx : AudioContext) :
  i <> j ->
  page !! i = Some ci -> playbackState ci = Playing ->
  page !! j = Some cj -> playbackState cj = Idle ->
  new_AudioContext 24000 = Normal ctx ->
  atob base64Audio = Normal binaryString ->
  String.length binaryString mod 2 = 0 ->
  binaryString <> "" ->
  let clicked := handleSpeak_click text stop_outcome cj in
  let settled := handleSpeak_resume (Normal base64Audio) (state_after clicked) in
  let page' :=
    page_run [Speak j text stop_outcome; SpeechSettled j (Normal base64Audio)] page in
  effects_of clicked ++ effects_of settled = [CallGenerateSpeech text; SourceStart] /\
  page' !! j = Some (state_after settled) /\
  playbackState (state_after settled) = Playing /\
  page' !! i = Some ci /\
  2 <= playing_count page'.
Proof.
  intros Hne Hi Hci Hj Hcj Hctx Hatob Heven Hnonempty. cbv zeta.
  unfold Page in *.
  assert (Hclick : handleSpeak_click text stop_outcome cj =
                   (Normal true,
                    {| isPlaying := false; isLoadingAudio := true;
                       audioContextRef := audioContextRef cj;
                       sourceRef := sourceRef cj |},
                    [CallGenerateSpeech text])).
  { unfold playbackState in Hcj. destruct cj as [pl ld c s]. simpl in Hcj.
    destruct ld; [discriminate|]. destruct pl; [discriminate|]. reflexivity. }
  assert (Hsettled :
            exists audioBuffer,
              handleSpeak_resume (Normal base64Audio)
                (state_after (handleSpeak_click text stop_outcome cj)) =
              (Normal tt,
               {| isPlaying := true; isLoadingAudio := false;
                  audioContextRef := Some ctx;
                  sourceRef := Some {| buffer := audioBuffer |} |},
               [SourceStart])).
  { rewrite handleSpeak_resume_cases. cbv zeta. rewrite Hctx.
    rewrite (decode_Normal base64Audio binaryString Hatob).
    rewrite pcmToAudioBuffer_even.
    - eexists. reflexivity.
    - rewrite length_map, length_list_ascii_of_string. exact Heven.
    - destruct binaryString; [congruence | discriminate]. }
  destruct Hsettled as [audioBuffer Hsettled].
  assert (Hpj : page_run [Speak j text stop_outcome; SpeechSettled j (Normal base64Audio)]
                  page !! j
                = Some (state_after
                          (handleSpeak_resume (Normal base64Audio)
                             (state_after (handleSpeak_click text stop_outcome cj))))).
  { unfold page_run, page_step. simpl. unfold Page.
    rewrite !list_lookup_alter_eq, Hj. reflexivity. }
  assert (Hpi : page_run [Speak j text stop_outcome; SpeechSettled j (Normal base64Audio)]
                  page !! i = Some ci).
  { unfold page_run, page_step. simpl. unfold Page.
    rewrite !list_lookup_alter_ne by congruence. exact Hi. }
  assert (Hplaying : playbackState
                       (state_after
                          (handleSpeak_resume (Normal base64Audio)
                             (state_after (handleSpeak_click text stop_outcome cj))))
                     = Playing).
  { rewrite Hsettled. reflexivity. }
  split; [rewrite Hsettled, Hclick; reflexivity|].
  split; [exact Hpj|]. split; [exact Hplaying|]. split; [exact Hpi|].
  exact (playing_count_two _ i j _ _ Hne Hpi Hci Hpj Hplaying).
Qed.

End PageProperties.

Lemma second_turn_plays_beside_first_witness :
  let first :=
    state_after
      (handleSpeak_resume (H := ModelHost.model_host) (Normal "AQD//w==")
         (state_after (handleSpeak_click "uno" (Normal tt) mounted))) in
  let page := [first; mounted] in
  let clicked := handleSpeak_click "dos" (Normal tt) mounted in
  let settled := handleSpeak_resume (H := ModelHost.model_host)
                   (Normal "AAAAAA==") (state_after clicked) in
  let page' :=
    page_run (H := ModelHost.model_host)
      [Speak 1 "dos" (Normal tt); SpeechSettled 1 (Normal "AAAAAA==")] page in
  effects_of clicked ++ effects_of settled = [CallGenerateSpeech "dos"; SourceStart] /\
  page' !! 1 = Some (state_after settled) /\
  playbackState (state_after settled) = Playing /\
  page' !! 0 = Some first /\
  2 <= playing_count page'.
Proof.
  apply (@second_turn_plays_beside_first ModelHost.model_host
           [ state_after
               (handleSpeak_resume (H := ModelHost.model_host) (Normal "AQD//w==")
                  (state_after (handleSpeak_click "uno" (Normal tt) mounted)));
             mounted ]
           0 1
           (state_after
              (handleSpeak_resume (H := ModelHost.model_host) (Normal "AQD//w==")
                 (state_after (handleSpeak_click "uno" (Normal tt) mounted))))
           mounted "dos" (Normal tt) "AAAAAA=="
           (String "000" (String "000" (String "000" (String "000" ""))))
           {| ctx_sampleRate := 24000 |}).
  - lia.
  - reflexivity.
  - reflexivity.
  - reflexivity.
  - reflexivity.
  - reflexivity.
  - reflexivity.
  - reflexivity.
  - discriminate.
Defined.
